(** * Resolution cache layer of the disaster-response backend

    A shallow embedding of
    - [utils/cache.js] (class [CacheService]: [get], [set], [delete],
      [clear]),
    - [routes/geocoding.js] (the [POST /geocoding] handler with its
      location-extraction step, and [geocodeLocation]),
    - [middleware/auth.js] ([authMiddleware], [requireAdmin]),
    followed by the properties of the cache-aside layer, of the
    provider fallback chain, of the key derivation and of the
    authentication.

    Conventions.
    - A JavaScript string is the list of its UTF-16 code units.
    - Time is the number of milliseconds since the epoch ([Date.now()]).
      A [Date] has a time value only within 8.64e15 ms of the epoch;
      the clock itself is taken to show such a time, what the code adds
      to it need not be one.
    - A value goes into the cache table as JSON and comes back as JSON.
    - Everything outside the two source files is environment: the
      cache table behind the Supabase client, the three geocoding
      endpoints and the Gemini model.  Their answers, their failures
      and the time each awaited call takes are read from an [Env].
    - [async] functions are computations in a state-and-exception monad
      over a [World] (table contents, clock, count of awaited I/O calls,
      and the chronological trace of those calls with their answers).
    - Logger calls are not modelled. *)

From Stdlib Require Import ZArith List String Ascii Lia PrimFloat.
From stdpp Require Import gmap strings list.

Open Scope Z_scope.

(** ** JavaScript strings *)

Module JsString.

(** UTF-16 code units, each in [0, 0xFFFF]. *)
Definition jsstring := list Z.

Definition code_units (s : jsstring) : bool :=
  forallb (fun c => (0 <=? c) && (c <? 0x10000)) s.

(** A string literal of the source, written in ASCII. *)
Definition js (s : string) : jsstring :=
  map (fun a => Z.of_N (N_of_ascii a)) (list_ascii_of_string s).

Definition is_high_surrogate (c : Z) : bool := (0xD800 <=? c) && (c <=? 0xDBFF).
Definition is_low_surrogate (c : Z) : bool := (0xDC00 <=? c) && (c <=? 0xDFFF).

(** [String.prototype.isWellFormed]: no unpaired surrogate. *)
Fixpoint isWellFormed (s : jsstring) : bool :=
  match s with
  | [] => true
  | c :: rest =>
      if is_high_surrogate c then
        match rest with
        | d :: rest' => is_low_surrogate d && isWellFormed rest'
        | [] => false
        end
      else if is_low_surrogate c then false
      else isWellFormed rest
  end.

(** White space and line terminators, as [String.prototype.trim] sees them. *)
Definition is_space (c : Z) : bool :=
  ((0x09 <=? c) && (c <=? 0x0D)) || (c =? 0x20) || (c =? 0xA0) || (c =? 0x1680)
  || ((0x2000 <=? c) && (c <=? 0x200A)) || (c =? 0x2028) || (c =? 0x2029)
  || (c =? 0x202F) || (c =? 0x205F) || (c =? 0x3000) || (c =? 0xFEFF).

Fixpoint trimStart (s : jsstring) : jsstring :=
  match s with
  | c :: rest => if is_space c then trimStart rest else s
  | [] => []
  end.

Definition trimEnd (s : jsstring) : jsstring := rev (trimStart (rev s)).

Definition trim (s : jsstring) : jsstring := trimEnd (trimStart s).

(** The code point of a surrogate pair. *)
Definition code_point (hi lo : Z) : Z :=
  0x10000 + (hi - 0xD800) * 0x400 + (lo - 0xDC00).

(** U+FFFD in UTF-8, which stands for every unpaired surrogate. *)
Definition replacement : list Z := [0xEF; 0xBF; 0xBD].

(** [Buffer.from(s)]: the UTF-8 bytes of a string. *)
Fixpoint Buffer_from (s : jsstring) : list Z :=
  match s with
  | [] => []
  | c :: rest =>
      if c <? 0x80 then c :: Buffer_from rest
      else if c <? 0x800 then
        0xC0 + c / 64 :: 0x80 + c mod 64 :: Buffer_from rest
      else if is_high_surrogate c then
        match rest with
        | d :: rest' =>
            if is_low_surrogate d then
              let cp := code_point c d in
              0xF0 + cp / 262144 :: 0x80 + (cp / 4096) mod 64
                :: 0x80 + (cp / 64) mod 64 :: 0x80 + cp mod 64
                :: Buffer_from rest'
            else replacement ++ Buffer_from rest
        | [] => replacement
        end
      else if is_low_surrogate c then replacement ++ Buffer_from rest
      else
        0xE0 + c / 4096 :: 0x80 + (c / 64) mod 64 :: 0x80 + c mod 64
          :: Buffer_from rest
  end.

Definition base64_alphabet : string :=
  "ABCDEFGHIJKLMNOPQRSTUVWXYZabcdefghijklmnopqrstuvwxyz0123456789+/".

Definition base64_digit (n : Z) : ascii :=
  match get (Z.to_nat n) base64_alphabet with
  | Some a => a
  | None => "="%char
  end.

(** [buf.toString('base64')]: three bytes become four digits, the last
    group is padded with [=]. *)
Fixpoint toString_base64 (bytes : list Z) : string :=
  match bytes with
  | [] => EmptyString
  | [a] =>
      String (base64_digit (a / 4))
        (String (base64_digit (a mod 4 * 16)) "==")
  | [a; b] =>
      String (base64_digit (a / 4))
        (String (base64_digit (a mod 4 * 16 + b / 16))
           (String (base64_digit (b mod 16 * 4)) "="))
  | a :: b :: c :: rest =>
      String (base64_digit (a / 4))
        (String (base64_digit (a mod 4 * 16 + b / 16))
           (String (base64_digit (b mod 16 * 4 + c / 64))
              (String (base64_digit (c mod 64)) (toString_base64 rest))))
  end.

(** The value of a base64 digit: its position in the alphabet, 64 for
    any other character. *)
Fixpoint index_from (n : Z) (a : ascii) (s : string) : Z :=
  match s with
  | EmptyString => n
  | String b s' => if Ascii.eqb a b then n else index_from (n + 1) a s'
  end.

Definition base64_value (a : ascii) : Z := index_from 0 a base64_alphabet.

Definition bytes (l : list Z) : Prop := Forall (fun b => 0 <= b < 256) l.

End JsString.
Export JsString.

(** ** Cache keys

    [`location_extract_${Buffer.from(description).toString('base64')}`]
    and [`geocode_${Buffer.from(locationName).toString('base64')}`]. *)

Definition cacheKey (operation : string) (input : jsstring) : string :=
  (operation ++ toString_base64 (Buffer_from input))%string.

Definition extract_cacheKey (description : jsstring) : string :=
  cacheKey "location_extract_" description.

Definition geocode_cacheKey (locationName : jsstring) : string :=
  cacheKey "geocode_" locationName.


(** [encodeURIComponent]: percent-encoding of the UTF-8 bytes, except
    for letters, digits and [- _ . ! ~ * ' ( )]; it throws a [URIError]
    on a string with an unpaired surrogate. *)
Module Uri.

Definition unreserved (b : Z) : bool :=
  ((0x41 <=? b) && (b <=? 0x5A)) || ((0x61 <=? b) && (b <=? 0x7A))
  || ((0x30 <=? b) && (b <=? 0x39))
  || (b =? 0x2D) || (b =? 0x5F) || (b =? 0x2E) || (b =? 0x21) || (b =? 0x7E)
  || (b =? 0x2A) || (b =? 0x27) || (b =? 0x28) || (b =? 0x29).

Definition hex_digit (n : Z) : Z := if n <? 10 then 0x30 + n else 0x41 + (n - 10).

Definition escape (b : Z) : jsstring :=
  if unreserved b then [b] else [0x25; hex_digit (b / 16); hex_digit (b mod 16)].

Definition encodeURIComponent (s : jsstring) : option jsstring :=
  if isWellFormed s then Some (concat (map escape (Buffer_from s))) else None.

End Uri.
Export Uri.

(** ** Values *)

(** A value that the code copies out of a payload without looking at
    it: a number, [undefined] (the property is absent), or any other
    JSON value (a string, a boolean, an array, an object), known by its
    JSON text.  Under [option], [None] is [null]. *)
Inductive Payload :=
| number (x : float)
| undefined
| other (json : jsstring).

(** An array, an array-like or another object.  A [jsonb] value can be
    one, although this code writes none.  The code does two things with
    such a value: [Buffer.from], which gives the bytes of an array or
    array-like and throws a [TypeError] on another object ([None]), and
    [String], inside [encodeURIComponent]. *)
Record Object := {
  Buffer_from_object : option (list Z);
  String_object : jsstring
}.

(** What [geocodeLocation] resolves: a string, or an object that
    [Buffer.from] accepts. *)
Inductive Name :=
| text_name (s : jsstring)
| object_name (o : Object).

Coercion text_name : jsstring >-> Name.

(** [String(locationName)] *)
Definition ToString (n : Name) : jsstring :=
  match n with
  | text_name s => s
  | object_name o => String_object o
  end.

(** The object that [geocodeLocation] builds; [None] is [null]. *)
Record GeocodeResult := {
  latitude : option Payload;
  longitude : option Payload;
  formatted_address : Name;
  geocoding_provider : option jsstring;
  confidence : jsstring
}.

(** The values that travel through the cache and the handler: the JSON
    scalars, the geocoding object, and the other objects. *)
Inductive jsval :=
| JNull
| JBool (b : bool)
| JNum (x : float)
| JStr (s : jsstring)
| JGeo (r : GeocodeResult)
| JObj (o : Object).

(** Truthiness, as tested by [if (cachedResult)] and [if (!extractedLocation)]. *)
Definition truthy (v : jsval) : bool :=
  match v with
  | JNull => false
  | JBool b => b
  | JNum x => negb (PrimFloat.eqb x 0 || PrimFloat.is_nan x)
  | JStr s => match s with [] => false | _ => true end
  | JGeo _ => true
  | JObj _ => true
  end.

(** *** The way through JSON

    [JSON.parse(JSON.stringify(v))]: [NaN] and the infinities become
    [null], [-0] becomes [0]; a property that is [undefined] is left
    out, and reads as [undefined] again; strings, booleans and values
    that came out of JSON stay as they are. *)
Definition JSON_number (x : float) : option float :=
  if PrimFloat.is_finite x
  then Some (if PrimFloat.eqb x 0 then 0%float else x)
  else None.

Definition JSON_payload (c : option Payload) : option Payload :=
  match c with
  | Some (number x) =>
      match JSON_number x with
      | Some y => Some (number y)
      | None => None
      end
  | _ => c
  end.

Definition JSON_result (r : GeocodeResult) : GeocodeResult :=
  {| latitude := JSON_payload (latitude r);
     longitude := JSON_payload (longitude r);
     formatted_address := formatted_address r;
     geocoding_provider := geocoding_provider r;
     confidence := confidence r |}.

Definition JSON (v : jsval) : jsval :=
  match v with
  | JNum x =>
      match JSON_number x with
      | Some y => JNum y
      | None => JNull
      end
  | JGeo r => JGeo (JSON_result r)
  | _ => v
  end.

Definition is_null (v : jsval) : bool :=
  match v with
  | JNull => true
  | _ => false
  end.

(** [a === b] on strings. *)
Definition str_eq (a b : jsstring) : bool := bool_decide (a = b).

(** [v !== s] for a string literal [s]. *)
Definition strict_neq (v : jsval) (s : jsstring) : bool :=
  match v with
  | JStr t => negb (str_eq t s)
  | _ => true
  end.

(** ** The environment *)

(** What a call into the storage medium meets: the medium answers, it
    answers with its [error] field set (unreachable, or it cannot hold
    the row), or the client call throws. *)
Inductive Medium := Up | Refuses | Crashes.

Definition is_up (m : Medium) : bool :=
  match m with
  | Up => true
  | _ => false
  end.

(** The answer of a remote service: a payload of the documented shape,
    or a failure (network error, body that is not JSON, payload on which
    the property accesses of the caller throw). *)
Inductive Reply (A : Type) :=
| Data (d : A)
| Fails.
Arguments Data {A} d.
Arguments Fails {A}.

(** [lat] and [lng] are copied as they come. *)
Record GoogleLocation := { lat : option Payload; lng : option Payload }.
Record GoogleResult := {
  geometry_location : GoogleLocation;
  g_formatted_address : jsstring
}.
Record GoogleData := { status : jsstring; results : list GoogleResult }.

(** [center] is [[longitude, latitude]], which are copied as they come;
    an absent [features] is [None]. *)
Record MapboxFeature := {
  center : option Payload * option Payload;
  place_name : jsstring;
  relevance : float
}.
Record MapboxData := { features : option (list MapboxFeature) }.

Record NominatimPlace := {
  osm_lat : jsstring;
  osm_lon : jsstring;
  display_name : jsstring
}.

(** The oracles are indexed by the number of awaited I/O calls made so
    far, so that one environment describes services that change their
    answers over time. *)
Record Env := {
  GOOGLE_MAPS_API_KEY : option jsstring;
  MAPBOX_API_KEY : option jsstring;
  delay : nat -> N;
  medium : nat -> Medium;
  google_maps : nat -> jsstring -> Reply GoogleData;
  mapbox : nat -> jsstring -> Reply MapboxData;
  nominatim : nat -> jsstring -> Reply (list NominatimPlace);
  gemini : nat -> jsstring -> Reply jsstring
}.

(** [if (process.env.X)]: set and not empty. *)
Definition configured (key : option jsstring) : option jsstring :=
  match key with
  | Some (c :: k) => Some (c :: k)
  | _ => None
  end.

Record Row := { value : jsval; expires_at : Z }.

Inductive Event :=
| EvSelect (key : string) (m : Medium)
| EvUpsert (key : string) (v : jsval) (expiresAt : Z) (m : Medium)
| EvDelete (key : string) (m : Medium)
| EvGoogle (url : jsstring) (r : Reply GoogleData)
| EvMapbox (url : jsstring) (r : Reply MapboxData)
| EvNominatim (url : jsstring) (r : Reply (list NominatimPlace))
| EvGemini (prompt : jsstring) (r : Reply jsstring).

Record World := {
  table : gmap string Row;
  now : Z;
  io : nat;
  trace : list Event
}.

(** The world [w] when the clock shows [t]. *)
Definition world_at (t : Z) (w : World) : World :=
  {| table := table w; now := t; io := io w; trace := trace w |}.

(** ** Asynchronous computations *)

Inductive exn := TypeError | RangeError | URIError | NetworkError | StorageError.

Inductive Outcome (A : Type) :=
| Return (a : A)
| Throw (e : exn).
Arguments Return {A} a.
Arguments Throw {A} e.

Definition M (A : Type) : Type := World -> Outcome A * World.

Definition ret {A} (a : A) : M A := fun w => (Return a, w).

Definition throw {A} (e : exn) : M A := fun w => (Throw e, w).

Definition bind {A B} (m : M A) (k : A -> M B) : M B :=
  fun w =>
    match m w with
    | (Return a, w') => k a w'
    | (Throw e, w') => (Throw e, w')
    end.

(** [try { m } catch (error) { h error }] *)
Definition try_catch {A} (m : M A) (h : exn -> M A) : M A :=
  fun w =>
    match m w with
    | (Return a, w') => (Return a, w')
    | (Throw e, w') => h e w'
    end.

Declare Scope async_scope.
Delimit Scope async_scope with async.
Notation "x <- m ;; k" := (bind m (fun x => k))
  (at level 100, m at next level, right associativity) : async_scope.
Notation "m ;;; k" := (bind m (fun _ => k))
  (at level 100, right associativity) : async_scope.
Open Scope async_scope.

(** [Date.now()] *)
Definition Date_now : M Z := fun w => (Return (now w), w).

(** The time values that a [Date] can have. *)
Definition max_time : Z := 8640000000000000.

Definition valid_time (t : Z) : bool := (- max_time <=? t) && (t <=? max_time).

(** [new Date(t).toISOString()]: a [RangeError] on a [Date] without a
    time value.  The text stands for the time it denotes. *)
Definition toISOString (t : Z) : M Z :=
  if valid_time t then ret t else throw RangeError.

(** An awaited call: it takes [delay env (io w)] milliseconds, leaves its
    event in the trace and may change the table. *)
Definition await (env : Env) (ev : Event) (tbl : gmap string Row) (w : World) : World :=
  {| table := tbl;
     now := now w + Z.of_N (delay env (io w));
     io := S (io w);
     trace := trace w ++ [ev] |}.

(** ** The Supabase client on the [cache] table *)

Inductive PgError := NoRows | Refused.

(** [{ data, error }] *)
Record Response := { data : option Row; error : option PgError }.

(** [supabase.from('cache').select('value, expires_at').eq('key', key).single()] *)
Definition select_single (env : Env) (key : string) : M Response :=
  fun w =>
    let m := medium env (io w) in
    let w' := await env (EvSelect key m) (table w) w in
    match m with
    | Up =>
        match table w !! key with
        | Some row => (Return {| data := Some row; error := None |}, w')
        | None => (Return {| data := None; error := Some NoRows |}, w')
        end
    | Refuses => (Return {| data := None; error := Some Refused |}, w')
    | Crashes => (Throw StorageError, w')
    end.

(** The answer to an upsert of [v]: the value travels as JSON, and the
    column is [value jsonb NOT NULL], so a medium that answers refuses
    a value that JSON turns into [null]. *)
Definition upsert_answer (m : Medium) (v : jsval) : Medium :=
  match m with
  | Up => if is_null (JSON v) then Refuses else Up
  | _ => m
  end.

(** [supabase.from('cache').upsert({ key, value, expires_at })].  The
    event records the value handed over and the answer; the table
    holds what JSON makes of the value. *)
Definition upsert (env : Env) (key : string) (v : jsval) (expiresAt : Z) : M Response :=
  fun w =>
    let m := upsert_answer (medium env (io w)) v in
    match m with
    | Up =>
        (Return {| data := None; error := None |},
         await env (EvUpsert key v expiresAt m)
           (<[key := {| value := JSON v; expires_at := expiresAt |}]> (table w)) w)
    | Refuses =>
        (Return {| data := None; error := Some Refused |},
         await env (EvUpsert key v expiresAt m) (table w) w)
    | Crashes =>
        (Throw StorageError, await env (EvUpsert key v expiresAt m) (table w) w)
    end.

(** [supabase.from('cache').delete().eq('key', key)] *)
Definition delete_eq (env : Env) (key : string) : M Response :=
  fun w =>
    let m := medium env (io w) in
    match m with
    | Up =>
        (Return {| data := None; error := None |},
         await env (EvDelete key m) (delete key (table w)) w)
    | Refuses =>
        (Return {| data := None; error := Some Refused |},
         await env (EvDelete key m) (table w) w)
    | Crashes => (Throw StorageError, await env (EvDelete key m) (table w) w)
    end.

(** ** [class CacheService] *)

Module cache.

Definition delete (env : Env) (key : string) : M bool :=
  try_catch
    (r <- delete_eq env key;;
     match error r with
     | Some _ => ret false
     | None => ret true
     end)
    (fun _ => ret false).

(** [null] is [JNull]. *)
Definition get (env : Env) (key : string) : M jsval :=
  try_catch
    (r <- select_single env key;;
     match error r with
     | Some _ => ret JNull
     | None =>
         match data r with
         | None => throw TypeError
         | Some row =>
             t <- Date_now;;
             if expires_at row <? t then
               (delete env key;;; ret JNull)
             else ret (value row)
         end
     end)
    (fun _ => ret JNull).

Definition set (env : Env) (key : string) (v : jsval) (ttlMinutes : Z) : M bool :=
  try_catch
    (t <- Date_now;;
     let expiresAt := t + ttlMinutes * 60 * 1000 in
     iso <- toISOString expiresAt;;
     r <- upsert env key v iso;;
     match error r with
     | Some _ => ret false
     | None => ret true
     end)
    (fun _ => ret false).

End cache.

(** ** [routes/geocoding.js] *)

Definition fetch_google (env : Env) (url : jsstring) : M GoogleData :=
  fun w =>
    let r := google_maps env (io w) url in
    let w' := await env (EvGoogle url r) (table w) w in
    match r with
    | Data d => (Return d, w')
    | Fails => (Throw NetworkError, w')
    end.

Definition fetch_mapbox (env : Env) (url : jsstring) : M MapboxData :=
  fun w =>
    let r := mapbox env (io w) url in
    let w' := await env (EvMapbox url r) (table w) w in
    match r with
    | Data d => (Return d, w')
    | Fails => (Throw NetworkError, w')
    end.

Definition fetch_nominatim (env : Env) (url : jsstring) : M (list NominatimPlace) :=
  fun w =>
    let r := nominatim env (io w) url in
    let w' := await env (EvNominatim url r) (table w) w in
    match r with
    | Data d => (Return d, w')
    | Fails => (Throw NetworkError, w')
    end.

(** [model.generateContent(prompt)], then [result.response] and
    [response.text()]. *)
Definition generateContent (env : Env) (prompt : jsstring) : M jsstring :=
  fun w =>
    let r := gemini env (io w) prompt in
    let w' := await env (EvGemini prompt r) (table w) w in
    match r with
    | Data text => (Return text, w')
    | Fails => (Throw NetworkError, w')
    end.

Definition encode (s : jsstring) : M jsstring :=
  match encodeURIComponent s with
  | Some u => ret u
  | None => throw URIError
  end.

Definition google_url (locationName key : jsstring) : jsstring :=
  js "https://maps.googleapis.com/maps/api/geocode/json?address="
    ++ locationName ++ js "&key=" ++ key.

Definition mapbox_url (locationName key : jsstring) : jsstring :=
  js "https://api.mapbox.com/geocoding/v5/mapbox.places/"
    ++ locationName ++ js ".json?access_token=" ++ key ++ js "&limit=1".

Definition nominatim_url (locationName : jsstring) : jsstring :=
  js "https://nominatim.openstreetmap.org/search?format=json&q="
    ++ locationName ++ js "&limit=1&email=disaster-response@example.com".

(** The double closest to [0.8]. *)
Definition relevance_threshold : float := 0x1.999999999999ap-1%float.

(** The result that [geocodeLocation] starts from. *)
Definition unresolved (locationName : Name) : GeocodeResult :=
  {| latitude := None;
     longitude := None;
     formatted_address := locationName;
     geocoding_provider := None;
     confidence := js "unknown" |}.

Definition extraction_prompt (description : jsstring) : jsstring :=
  js "Extract the specific location name from this disaster description. Return only the location name (city, state/province, country) or "
    ++ [34] ++ js "NONE" ++ [34] ++ js " if no clear location is found:"
    ++ [10; 10] ++ js "Description: " ++ [34] ++ description ++ [34]
    ++ [10; 10] ++ js "Location:".

(** The body sent by [res.json]; [geocode] is the object spread into it. *)
Record GeocodingBody := {
  original_description : jsstring;
  extracted_location : option jsval;
  location_name : jsval;
  geocode : jsval
}.

Inductive HttpOutcome :=
| res_json (body : GeocodingBody)
| next (error : exn).

Section Geocoding.

(** The global [parseFloat]. *)
Variable parseFloat : jsstring -> float.

(** The result objects of the three provider blocks. *)

Definition google_result (first : GoogleResult) : GeocodeResult :=
  let location := geometry_location first in
  {| latitude := lat location;
     longitude := lng location;
     formatted_address := g_formatted_address first;
     geocoding_provider := Some (js "google_maps");
     confidence := js "high" |}.

Definition mapbox_result (feature : MapboxFeature) : GeocodeResult :=
  {| latitude := snd (center feature);
     longitude := fst (center feature);
     formatted_address := place_name feature;
     geocoding_provider := Some (js "mapbox");
     confidence :=
       if PrimFloat.ltb relevance_threshold (relevance feature)
       then js "high" else js "medium" |}.

Definition openstreetmap_result (location : NominatimPlace) : GeocodeResult :=
  {| latitude := Some (number (parseFloat (osm_lat location)));
     longitude := Some (number (parseFloat (osm_lon location)));
     formatted_address := display_name location;
     geocoding_provider := Some (js "openstreetmap");
     confidence := js "medium" |}.

(** The three provider blocks.  [locationName] is the string that
    [encodeURIComponent] makes of the name.  [Some result] is the
    [return result] inside the block; [None] falls through to the code
    after it. *)

Definition tryGoogleMaps (env : Env) (locationName : jsstring) (cacheKey : string)
  : M (option GeocodeResult) :=
  match configured (GOOGLE_MAPS_API_KEY env) with
  | Some key =>
      try_catch
        (address <- encode locationName;;
         data <- fetch_google env (google_url address key);;
         if str_eq (status data) (js "OK") then
           match results data with
           | first :: _ =>
               let result := google_result first in
               cache.set env cacheKey (JGeo result) 1440;;;
               ret (Some result)
           | [] => ret None
           end
         else ret None)
        (fun _ => ret None)
  | None => ret None
  end.

Definition tryMapbox (env : Env) (locationName : jsstring) (cacheKey : string)
  : M (option GeocodeResult) :=
  match configured (MAPBOX_API_KEY env) with
  | Some key =>
      try_catch
        (place <- encode locationName;;
         data <- fetch_mapbox env (mapbox_url place key);;
         match features data with
         | Some (feature :: _) =>
             let result := mapbox_result feature in
             cache.set env cacheKey (JGeo result) 1440;;;
             ret (Some result)
         | _ => ret None
         end)
        (fun _ => ret None)
  | None => ret None
  end.

Definition tryOpenStreetMap (env : Env) (locationName : jsstring) (cacheKey : string)
  : M (option GeocodeResult) :=
  try_catch
    (q <- encode locationName;;
     data <- fetch_nominatim env (nominatim_url q);;
     match data with
     | location :: _ =>
         let result := openstreetmap_result location in
         cache.set env cacheKey (JGeo result) 1440;;;
         ret (Some result)
     | [] => ret None
     end)
    (fun _ => ret None).

(** The part of [geocodeLocation] after the cache check. *)
Definition tryProviders (env : Env) (locationName : Name) (cacheKey : string)
  : M jsval :=
  g <- tryGoogleMaps env (ToString locationName) cacheKey;;
  match g with
  | Some result => ret (JGeo result)
  | None =>
      m <- tryMapbox env (ToString locationName) cacheKey;;
      match m with
      | Some result => ret (JGeo result)
      | None =>
          o <- tryOpenStreetMap env (ToString locationName) cacheKey;;
          match o with
          | Some result => ret (JGeo result)
          | None =>
              let result := unresolved locationName in
              cache.set env cacheKey (JGeo result) 60;;;
              ret (JGeo result)
          end
      end
  end.

(** [Buffer.from] takes a string, an array or an array-like, and throws
    a [TypeError] on anything else. *)
Definition geocodeLocation (env : Env) (locationName : jsval) : M jsval :=
  match locationName with
  | JStr name =>
      let cacheKey := geocode_cacheKey name in
      cachedResult <- cache.get env cacheKey;;
      if truthy cachedResult then ret cachedResult
      else tryProviders env name cacheKey
  | JObj o =>
      match Buffer_from_object o with
      | Some bytes =>
          let cacheKey := ("geocode_" ++ toString_base64 bytes)%string in
          cachedResult <- cache.get env cacheKey;;
          if truthy cachedResult then ret cachedResult
          else tryProviders env (object_name o) cacheKey
      | None => throw TypeError
      end
  | _ => throw TypeError
  end.

(** The block guarded by [if (extractLocation)], up to the value of
    [extractedLocation]. *)
Definition extractLocation_step (env : Env) (description : jsstring) : M jsval :=
  let cacheKey := extract_cacheKey description in
  extractedLocation <- cache.get env cacheKey;;
  if negb (truthy extractedLocation) then
    try_catch
      (text <- generateContent env (extraction_prompt description);;
       let extractedLocation := JStr (trim text) in
       cache.set env cacheKey extractedLocation 60;;;
       ret extractedLocation)
      (fun _ => ret (JStr (js "NONE")))
  else ret extractedLocation.

(** The handler of [POST /geocoding], from the validated
    [{ description, extractLocation }] on. *)
Definition post_geocoding (env : Env) (description : jsstring) (extractLocation : bool)
  : M HttpOutcome :=
  try_catch
    (locationName <-
       (if extractLocation then
          extractedLocation <- extractLocation_step env description;;
          ret (if strict_neq extractedLocation (js "NONE")
               then extractedLocation else JStr description)
        else ret (JStr description));;
     geocodeResult <- geocodeLocation env locationName;;
     ret (res_json
            {| original_description := description;
               extracted_location :=
                 if extractLocation then Some locationName else None;
               location_name := locationName;
               geocode := geocodeResult |}))
    (fun error => ret (next error)).

End Geocoding.

(** What the handler does with the outcome of [geocodeLocation]:
    [res.json] of the body, or [next(error)]. *)
Definition respond (description : jsstring) (extracted : option jsval)
    (locationName : jsval) (run : Outcome jsval * World)
  : Outcome HttpOutcome * World :=
  match run with
  | (Return geocodeResult, w) =>
      (Return (res_json
                 {| original_description := description;
                    extracted_location := extracted;
                    location_name := locationName;
                    geocode := geocodeResult |}), w)
  | (Throw error, w) => (Return (next error), w)
  end.

#[global] Arguments js : simpl never.
#[global] Arguments str_eq : simpl never.
#[global] Arguments encodeURIComponent : simpl never.
#[global] Arguments trim : simpl never.
#[global] Arguments cacheKey : simpl never.
#[global] Arguments extract_cacheKey : simpl never.
#[global] Arguments geocode_cacheKey : simpl never.
#[global] Arguments google_url : simpl never.
#[global] Arguments mapbox_url : simpl never.
#[global] Arguments nominatim_url : simpl never.
#[global] Arguments extraction_prompt : simpl never.
#[global] Arguments upsert_answer : simpl never.
#[global] Arguments valid_time : simpl never.

(** ** Reading a trace *)

Inductive Provider := GoogleMaps | Mapbox | OpenStreetMap.

(** The place of a provider in the chain of [geocodeLocation]. *)
Definition priority (p : Provider) : nat :=
  match p with
  | GoogleMaps => 0
  | Mapbox => 1
  | OpenStreetMap => 2
  end.

(** The [geocoding_provider] that the block of a provider writes. *)
Definition provider_id (p : Provider) : jsstring :=
  match p with
  | GoogleMaps => js "google_maps"
  | Mapbox => js "mapbox"
  | OpenStreetMap => js "openstreetmap"
  end.

(** The guard of a provider block; the OpenStreetMap block has none. *)
Definition is_configured (env : Env) (p : Provider) : bool :=
  match p with
  | GoogleMaps => bool_decide (configured (GOOGLE_MAPS_API_KEY env) <> None)
  | Mapbox => bool_decide (configured (MAPBOX_API_KEY env) <> None)
  | OpenStreetMap => true
  end.

(** The provider that an event is a request to, if any. *)
Definition provider_of (e : Event) : option Provider :=
  match e with
  | EvGoogle _ _ => Some GoogleMaps
  | EvMapbox _ _ => Some Mapbox
  | EvNominatim _ _ => Some OpenStreetMap
  | _ => None
  end.

(** Whether the answer recorded in an event carries at least one match,
    by the test of the block that reads it.  [false] on a request to a
    provider means zero matches or an error. *)
Definition answer_matches (e : Event) : bool :=
  match e with
  | EvGoogle _ (Data d) =>
      str_eq (status d) (js "OK")
      && match results d with [] => false | _ => true end
  | EvMapbox _ (Data d) =>
      match features d with Some (_ :: _) => true | _ => false end
  | EvNominatim _ (Data (_ :: _)) => true
  | _ => false
  end.

(** Whether an event is a call into the storage medium that failed. *)
Definition storage_failure (e : Event) : bool :=
  match e with
  | EvSelect _ Up | EvUpsert _ _ _ Up | EvDelete _ Up => false
  | EvSelect _ _ | EvUpsert _ _ _ _ | EvDelete _ _ => true
  | _ => false
  end.

(** Strictly increasing. *)
Fixpoint ascending (l : list nat) : bool :=
  match l with
  | a :: l' =>
      match l' with
      | b :: _ => (a <? b)%nat && ascending l'
      | [] => true
      end
  | [] => true
  end.

(** The events between two worlds of one run. *)
Definition new_events (w w' : World) : list Event :=
  drop (length (trace w)) (trace w').

(** From [w] to [w'] the clock stays where a [Date] can hold a time one
    day (1440 minutes) ahead: every expiry that [geocodeLocation] and
    the extraction step compute has a time value. *)
Definition Date_range (w w' : World) : Prop :=
  - max_time <= now w /\ now w' + 1440 * 60 * 1000 <= max_time.

(** A provider block that falls through to the code after it: it leaves
    the table alone, and either makes no request (no credentials, or
    the name cannot be encoded) or one request without a match. *)
Definition fell_through (p : Provider) (env : Env) (name : jsstring)
    (w w' : World) : Prop :=
  table w' = table w /\ now w <= now w' /\
  ((trace w' = trace w /\
    (is_configured env p = false \/ encodeURIComponent name = None))
   \/ (exists e, trace w' = trace w ++ [e] /\ provider_of e = Some p
               /\ answer_matches e = false
               /\ encodeURIComponent name <> None)).

(** A provider block that returns [r]: one request with a match, then
    the write of [r] at 1440 minutes, which is in the table afterwards
    when the medium took it. *)
Definition returned (p : Provider) (name : jsstring) (key : string)
    (r : GeocodeResult) (w w' : World) : Prop :=
  exists e t m,
    trace w' = trace w ++ [e; EvUpsert key (JGeo r) (t + 1440 * 60 * 1000) m]
    /\ provider_of e = Some p /\ answer_matches e = true
    /\ geocoding_provider r = Some (provider_id p)
    /\ encodeURIComponent name <> None
    /\ now w <= t <= now w'
    /\ (m = Up ->
        table w' !! key =
        Some {| value := JSON (JGeo r); expires_at := t + 1440 * 60 * 1000 |}).

(** The ways through the provider chain of [geocodeLocation], from the
    world [w] that the cache check leaves to the result and the final
    world. *)
Inductive resolution (env : Env) (name : jsstring) (key : string) (w : World)
  : GeocodeResult -> World -> Prop :=
| by_google r w' :
    returned GoogleMaps name key r w w' -> resolution env name key w r w'
| by_mapbox r wg w' :
    fell_through GoogleMaps env name w wg ->
    returned Mapbox name key r wg w' -> resolution env name key w r w'
| by_openstreetmap r wg wm w' :
    fell_through GoogleMaps env name w wg ->
    fell_through Mapbox env name wg wm ->
    returned OpenStreetMap name key r wm w' -> resolution env name key w r w'
| exhausted wg wm wo :
    fell_through GoogleMaps env name w wg ->
    fell_through Mapbox env name wg wm ->
    fell_through OpenStreetMap env name wm wo ->
    resolution env name key w (unresolved name)
      (await env
         (EvUpsert key (JGeo (unresolved name)) (now wo + 60 * 60 * 1000)
            (medium env (io wo)))
         (if is_up (medium env (io wo))
          then <[key := {| value := JGeo (unresolved name);
                           expires_at := now wo + 60 * 60 * 1000 |}]> (table wo)
          else table wo) wo).

(** ** Sample environments and worlds *)

Module Sample.

Definition parseFloat (s : jsstring) : float := 0%float.

(** Both keys are set; Google Maps is unreachable, Mapbox knows one
    place, the storage medium answers, every awaited call takes 20 ms. *)
Definition manhattan : MapboxFeature :=
  {| center := (Some (number (-74)%float), Some (number 40.75%float));
     place_name := js "Lower East Side, Manhattan";
     relevance := 1%float |}.

Definition second_provider : Env :=
  {| GOOGLE_MAPS_API_KEY := Some (js "g-key");
     MAPBOX_API_KEY := Some (js "m-key");
     delay := fun _ => 20%N;
     medium := fun _ => Up;
     google_maps := fun _ _ => Fails;
     mapbox := fun _ _ => Data {| features := Some [manhattan] |};
     nominatim := fun _ _ => Data [];
     gemini := fun _ _ => Data (js " Lower East Side, Manhattan ") |}.

(** Nobody knows the place, and Gemini is unreachable. *)
Definition nowhere : Env :=
  {| GOOGLE_MAPS_API_KEY := Some (js "g-key");
     MAPBOX_API_KEY := Some (js "m-key");
     delay := fun _ => 20%N;
     medium := fun _ => Up;
     google_maps :=
       fun _ _ => Data {| status := js "ZERO_RESULTS"; results := [] |};
     mapbox := fun _ _ => Data {| features := Some [] |};
     nominatim := fun _ _ => Data [];
     gemini := fun _ _ => Fails |}.

(** As [nowhere], with a storage medium whose calls throw. *)
Definition storage_down : Env :=
  {| GOOGLE_MAPS_API_KEY := GOOGLE_MAPS_API_KEY nowhere;
     MAPBOX_API_KEY := MAPBOX_API_KEY nowhere;
     delay := delay nowhere;
     medium := fun _ => Crashes;
     google_maps := google_maps nowhere;
     mapbox := mapbox nowhere;
     nominatim := nominatim nowhere;
     gemini := gemini nowhere |}.

Definition start : Z := 1750228683000.

Definition empty_world : World :=
  {| table := ∅; now := start; io := 0; trace := [] |}.

(** A table with one entry. *)
Definition world_with (key : string) (v : jsval) (expiresAt : Z) : World :=
  {| table := {[ key := {| value := v; expires_at := expiresAt |} ]};
     now := start; io := 0; trace := [] |}.

(** A live entry under the key ["k"]. *)
Definition stocked_world : World :=
  world_with "k" (JStr (js "old")) (start + 60 * 60 * 1000).

(** An entry under ["k"] that expires 20 ms from [start]: at the very
    time a [get] issued at [start] reads the clock. *)
Definition boundary_row : Row :=
  {| value := JStr (js "v"); expires_at := start + 20 |}.

Definition boundary_world : World :=
  world_with "k" (value boundary_row) (expires_at boundary_row).

Definition place : jsstring := js "Lower East Side, Manhattan".
Definition nowhereland : jsstring := js "Nowhereland".
Definition description : jsstring := js "send help now".

(** The request that [geocodeLocation] sends to Mapbox for [place]. *)
Definition mapbox_request : Event :=
  EvMapbox
    (mapbox_url (default [] (encodeURIComponent place)) (js "m-key"))
    (Data {| features := Some [manhattan] |}).

(** The negative result for [nowhereland], cached and live. *)
Definition negative_world : World :=
  world_with (geocode_cacheKey nowhereland) (JGeo (unresolved nowhereland))
    (start + 60 * 60 * 1000).

(** Live entries with the empty string as value, under the extraction
    key and under the geocoding key of [description]. *)
Definition empty_string_row : Row :=
  {| value := JStr []; expires_at := start + 60 * 60 * 1000 |}.

Definition falsy_world : World :=
  {| table :=
       <[extract_cacheKey description := empty_string_row]>
         {[ geocode_cacheKey description := empty_string_row ]};
     now := start; io := 0; trace := [] |}.

(** Google Maps knows the Lower East Side, Gemini answers with white
    space around the name. *)
Definition lower_east_side : GoogleResult :=
  {| geometry_location :=
       {| lat := Some (number 0x1.45b851eb851ecp+5%float);
          lng := Some (number (-0x1.27eb851eb851fp+6)%float) |};
     g_formatted_address := js "Lower East Side, New York, NY, USA" |}.

Definition first_provider : Env :=
  {| GOOGLE_MAPS_API_KEY := Some (js "g-key");
     MAPBOX_API_KEY := Some (js "m-key");
     delay := fun _ => 20%N;
     medium := fun _ => Up;
     google_maps :=
       fun _ _ => Data {| status := js "OK"; results := [lower_east_side] |};
     mapbox := fun _ _ => Data {| features := Some [manhattan] |};
     nominatim := fun _ _ => Data [];
     gemini := fun _ _ => Data (js " Lower East Side, Manhattan ") |}.

Definition flooding : jsstring := js "Flooding near Lower East Side, Manhattan".

(** The extraction for [flooding] is cached and live. *)
Definition extracted_world : World :=
  world_with (extract_cacheKey flooding) (JStr place) (start + 60 * 60 * 1000).

(** As [nowhere], with a Gemini that answers with white space only. *)
Definition blank_answer : Env :=
  {| GOOGLE_MAPS_API_KEY := GOOGLE_MAPS_API_KEY nowhere;
     MAPBOX_API_KEY := MAPBOX_API_KEY nowhere;
     delay := delay nowhere;
     medium := medium nowhere;
     google_maps := google_maps nowhere;
     mapbox := mapbox nowhere;
     nominatim := nominatim nowhere;
     gemini := fun _ _ => Data (js "  ") |}.

End Sample.

(** ** The rest of [class CacheService] *)

Module CacheService.

(** [supabase.from('cache').delete().lt('expires_at', iso)], where [t]
    is the time that [iso] denotes: the rows that expired before [t]
    go.  The call counts as an awaited call; the trace, which follows
    single keys, has no event for it. *)
Definition delete_lt (env : Env) (t : Z) : M Response :=
  fun w =>
    let m := medium env (io w) in
    let after tbl :=
      {| table := tbl;
         now := now w + Z.of_N (delay env (io w));
         io := S (io w);
         trace := trace w |} in
    match m with
    | Up =>
        (Return {| data := None; error := None |},
         after (filter (fun kv => ~ expires_at kv.2 < t) (table w)))
    | Refuses =>
        (Return {| data := None; error := Some Refused |}, after (table w))
    | Crashes => (Throw StorageError, after (table w))
    end.

Definition clear (env : Env) : M bool :=
  try_catch
    (t <- Date_now;;
     r <- delete_lt env t;;
     match error r with
     | Some _ => ret false
     | None => ret true
     end)
    (fun _ => ret false).

End CacheService.

(** ** [middleware/auth.js] *)

Module Auth.

Record MockUser := { id : jsstring; role : jsstring; name : jsstring }.

Definition MOCK_USERS : list (jsstring * MockUser) :=
  [ (js "netrunnerX",
     {| id := js "netrunnerX"; role := js "admin"; name := js "NetRunner X" |});
    (js "reliefAdmin",
     {| id := js "reliefAdmin"; role := js "admin"; name := js "Relief Admin" |});
    (js "contributor1",
     {| id := js "contributor1"; role := js "contributor";
        name := js "Contributor 1" |});
    (js "citizen1",
     {| id := js "citizen1"; role := js "contributor";
        name := js "Citizen Reporter" |}) ].

(** The own property [key] of an object literal. *)
Fixpoint own_property (o : list (jsstring * MockUser)) (key : jsstring)
  : option MockUser :=
  match o with
  | (k, u) :: rest => if str_eq k key then Some u else own_property rest key
  | [] => None
  end.

(** What [req.user] can be: one of the mock users, or a value found on
    the prototype of the object literal, which is truthy and has neither
    an [id] nor a [role]. *)
Inductive ReqUser :=
| mock (u : MockUser)
| inherited_value (key : jsstring).

(** [req.user.id] and [req.user.role]; [None] is [undefined]. *)
Definition user_id (user : ReqUser) : option jsstring :=
  match user with
  | mock u => Some (id u)
  | inherited_value _ => None
  end.

Definition user_role (user : ReqUser) : option jsstring :=
  match user with
  | mock u => Some (role u)
  | inherited_value _ => None
  end.

Inductive AuthOutcome :=
| unauthorized_401
| authenticated (user : ReqUser).

Inductive AdminOutcome :=
| forbidden_403
| admitted.

(** [req.headers['x-user-id'] || 'netrunnerX'] *)
Definition effective_user_id (header : option jsstring) : jsstring :=
  match header with
  | Some (c :: s) => c :: s
  | _ => js "netrunnerX"
  end.

Section Prototype.

(** The property names that an object literal inherits from
    [Object.prototype] ([constructor], [toString], [__proto__], ...). *)
Variable on_prototype : jsstring -> bool.

(** [authenticated user] stands for [req.user = user; next()]. *)
Definition authMiddleware (header : option jsstring) : AuthOutcome :=
  let userId := effective_user_id header in
  match own_property MOCK_USERS userId with
  | Some u => authenticated (mock u)
  | None =>
      if on_prototype userId then authenticated (inherited_value userId)
      else unauthorized_401
  end.

End Prototype.

(** [admitted] stands for [next()]. *)
Definition requireAdmin (user : ReqUser) : AdminOutcome :=
  match user_role user with
  | Some r => if str_eq r (js "admin") then admitted else forbidden_403
  | None => forbidden_403
  end.

(** [router.delete('/:id', requireAdmin, ...)] behind
    [app.use('/api/disasters', authMiddleware, ...)]: whether the
    request reaches the handler. *)
Definition reaches_admin_handler (on_prototype : jsstring -> bool)
    (header : option jsstring) : bool :=
  match authMiddleware on_prototype header with
  | authenticated user =>
      match requireAdmin user with
      | admitted => true
      | forbidden_403 => false
      end
  | unauthorized_401 => false
  end.

End Auth.

(** ** Requests and results of the provider blocks *)

(** The URL that the block of a provider requests for an encoded name;
    [None] without credentials. *)
Definition provider_url (env : Env) (p : Provider) (encoded : jsstring)
  : option jsstring :=
  match p with
  | GoogleMaps =>
      match configured (GOOGLE_MAPS_API_KEY env) with
      | Some key => Some (google_url encoded key)
      | None => None
      end
  | Mapbox =>
      match configured (MAPBOX_API_KEY env) with
      | Some key => Some (mapbox_url encoded key)
      | None => None
      end
  | OpenStreetMap => Some (nominatim_url encoded)
  end.

(** The provider and the URL of a request. *)
Definition request_of (e : Event) : option (Provider * jsstring) :=
  match e with
  | EvGoogle url _ => Some (GoogleMaps, url)
  | EvMapbox url _ => Some (Mapbox, url)
  | EvNominatim url _ => Some (OpenStreetMap, url)
  | _ => None
  end.

(** [e] is the request of the block of [p] for [name]: the provider has
    its credentials, the name could be encoded, and the URL is the one
    of the block with the encoded name in it. *)
Definition requested (p : Provider) (env : Env) (name : jsstring) (e : Event)
  : Prop :=
  exists encoded url,
    encodeURIComponent name = Some encoded /\
    provider_url env p encoded = Some url /\
    request_of e = Some (p, url).

(** The confidence that the block of a provider can write. *)
Definition confidence_of (p : Provider) (c : jsstring) : Prop :=
  match p with
  | GoogleMaps => c = js "high"
  | Mapbox => c = js "high" \/ c = js "medium"
  | OpenStreetMap => c = js "medium"
  end.

(** [r] carries the mark of the block of [p]. *)
Definition built_by (p : Provider) (r : GeocodeResult) : Prop :=
  geocoding_provider r = Some (provider_id p) /\
  confidence_of p (confidence r).

(** The result that the block of a provider builds from the answer
    recorded in an event: the copy of its first match. *)
Definition result_of (parseFloat : jsstring -> float) (e : Event)
  : option GeocodeResult :=
  match e with
  | EvGoogle _ (Data d) =>
      if str_eq (status d) (js "OK") then
        match results d with
        | first :: _ => Some (google_result first)
        | [] => None
        end
      else None
  | EvMapbox _ (Data d) =>
      match features d with
      | Some (feature :: _) => Some (mapbox_result feature)
      | _ => None
      end
  | EvNominatim _ (Data (location :: _)) =>
      Some (openstreetmap_result parseFloat location)
  | _ => None
  end.

(** The code units that [encodeURIComponent] can produce. *)
Definition uri_safe (c : Z) : bool := unreserved c || (c =? 0x25).

(** What the block of [p] leaves behind when it ends with [o] ([Some r]
    for [return r], [None] for falling through).  A block that returns
    has made one request, which left the world [wl], and then called
    [cache.set] for 1440 minutes. *)
Definition block_run (parseFloat : jsstring -> float) (p : Provider) (env : Env)
    (name : jsstring) (key : string)
    (w : World) (o : option GeocodeResult) (w' : World) : Prop :=
  match o with
  | None =>
      table w' = table w /\ now w <= now w' /\
      ((trace w' = trace w /\
        (is_configured env p = false \/ encodeURIComponent name = None))
       \/ exists e, trace w' = trace w ++ [e] /\ requested p env name e
                    /\ answer_matches e = false)
  | Some r =>
      exists e wl,
        trace wl = trace w ++ [e] /\ table wl = table w /\ now w <= now wl
        /\ requested p env name e /\ answer_matches e = true
        /\ result_of parseFloat e = Some r
        /\ built_by p r
        /\ w' = snd (cache.set env key (JGeo r) 1440 wl)
  end.

(** What the provider chain leaves behind: some requests, which leave
    the world [wl], then one call of [cache.set] with the result, for
    1440 minutes when the last request had a match and for 60 minutes
    when none had. *)
Definition chain_run (parseFloat : jsstring -> float) (env : Env)
    (name : jsstring) (key : string) (w : World)
    (r : GeocodeResult) (w' : World) : Prop :=
  exists evs wl ttl,
    trace wl = trace w ++ evs /\ table wl = table w /\ now w <= now wl
    /\ w' = snd (cache.set env key (JGeo r) ttl wl)
    /\ Forall (fun e => exists p, requested p env name e) evs
    /\ (encodeURIComponent name <> None -> evs <> [])
    /\ ((ttl = 1440 /\ (exists p, built_by p r)
         /\ exists evs0 e, evs = evs0 ++ [e] /\ answer_matches e = true
                           /\ result_of parseFloat e = Some r
                           /\ Forall (fun e0 => answer_matches e0 = false) evs0)
        \/ (ttl = 60 /\ r = unresolved name
            /\ Forall (fun e => answer_matches e = false) evs)).

(** The key of a call into the storage medium. *)
Definition storage_key (e : Event) : option string :=
  match e with
  | EvSelect key _ | EvUpsert key _ _ _ | EvDelete key _ => Some key
  | _ => None
  end.

(** ** Further sample data *)

Module Fixture.

(** The first code unit of an emoji, alone. *)
Definition cut_emoji : jsstring := [0xD83D].

(** A live entry under the extraction key of [Sample.description] whose
    value is not a string. *)
Definition foreign_world : World :=
  Sample.world_with (extract_cacheKey Sample.description) (JBool true)
    (Sample.start + 60 * 60 * 1000).

(** A live entry with the empty string as value under the geocoding key
    of [cut_emoji]. *)
Definition falsy_cut_world : World :=
  Sample.world_with (geocode_cacheKey cut_emoji) (JStr [])
    (Sample.start + 60 * 60 * 1000).

(** The array [[78, 89, 67]], whose bytes spell [NYC]. *)
Definition byte_array : Object :=
  {| Buffer_from_object := Some [78; 89; 67];
     String_object := js "78,89,67" |}.

(** A live entry under the extraction key of [Sample.description] whose
    value is that array. *)
Definition array_world : World :=
  Sample.world_with (extract_cacheKey Sample.description) (JObj byte_array)
    (Sample.start + 60 * 60 * 1000).

(** Google Maps answers with a match whose [lat] is [null] and whose
    [lng] is missing. *)
Definition without_coordinates : GoogleResult :=
  {| geometry_location := {| lat := None; lng := Some undefined |};
     g_formatted_address := js "Lower East Side, New York, NY, USA" |}.

Definition careless_provider : Env :=
  {| GOOGLE_MAPS_API_KEY := Some (js "g-key");
     MAPBOX_API_KEY := None;
     delay := fun _ => 20%N;
     medium := fun _ => Up;
     google_maps :=
       fun _ _ => Data {| status := js "OK"; results := [without_coordinates] |};
     mapbox := fun _ _ => Fails;
     nominatim := fun _ _ => Fails;
     gemini := fun _ _ => Fails |}.


(** A [parseFloat] that finds no number, and an OpenStreetMap that is
    the only provider to answer. *)
Definition no_number (s : jsstring) : float := PrimFloat.nan.

Definition somewhere : NominatimPlace :=
  {| osm_lat := js "north"; osm_lon := js "east";
     display_name := js "Somewhere" |}.

Definition last_provider : Env :=
  {| GOOGLE_MAPS_API_KEY := None;
     MAPBOX_API_KEY := None;
     delay := fun _ => 20%N;
     medium := fun _ => Up;
     google_maps := fun _ _ => Fails;
     mapbox := fun _ _ => Fails;
     nominatim := fun _ _ => Data [somewhere];
     gemini := fun _ _ => Fails |}.

End Fixture.

(** * Properties *)

Ltac arith := Z.div_mod_to_equations; lia.

Ltac bools :=
  repeat match goal with
  | H : _ && _ = true |- _ => apply andb_prop in H; destruct H
  | H : context [is_high_surrogate] |- _ => unfold is_high_surrogate in H
  | H : context [is_low_surrogate] |- _ => unfold is_low_surrogate in H
  | |- context [is_high_surrogate] => unfold is_high_surrogate
  | |- context [is_low_surrogate] => unfold is_low_surrogate
  end.

Ltac split_ifs :=
  repeat match goal with
  | H : context [if ?b then _ else _] |- _ =>
      let E := fresh "E" in destruct b eqn:E; try discriminate H
  end.

(** ** Base64 is injective on bytes *)

Lemma base64_value_of_nat (m : nat) :
  (m < 64)%nat -> base64_value (base64_digit (Z.of_nat m)) = Z.of_nat m.
Proof.
  intros L.
  do 64 (destruct m as [|m]; [vm_compute; reflexivity|]). lia.
Qed.

Lemma base64_value_digit n : 0 <= n < 64 -> base64_value (base64_digit n) = n.
Proof.
  intros H. rewrite <- (Z2Nat.id n) by lia. apply base64_value_of_nat. lia.
Qed.

Lemma base64_digit_inj a b :
  0 <= a < 64 -> 0 <= b < 64 -> base64_digit a = base64_digit b -> a = b.
Proof.
  intros Ha Hb E. apply (f_equal base64_value) in E.
  now rewrite !base64_value_digit in E.
Qed.

Lemma base64_digit_not_pad a : 0 <= a < 64 -> base64_digit a <> "="%char.
Proof.
  intros Ha E. apply (f_equal base64_value) in E.
  rewrite base64_value_digit in E by assumption. vm_compute in E. lia.
Qed.

Lemma toString_base64_inj_below n : forall l1 l2,
  (length l1 < n)%nat -> bytes l1 -> bytes l2 ->
  toString_base64 l1 = toString_base64 l2 -> l1 = l2.
Proof.
  induction n as [|n IH]; intros l1 l2 L B1 B2 E; [lia|].
  destruct l1 as [|a1 [|b1 [|c1 r1]]]; destruct l2 as [|a2 [|b2 [|c2 r2]]];
    simpl in E; try discriminate E;
    repeat match goal with
      | H : bytes (_ :: _) |- _ => apply Forall_cons_1 in H; destruct H
      | H : Forall _ (_ :: _) |- _ => apply Forall_cons_1 in H; destruct H
      end;
    try reflexivity.
  all: injection E; clear E; intros.
  all: repeat match goal with
      | H : base64_digit _ = "="%char |- _ =>
          apply base64_digit_not_pad in H; [contradiction|arith]
      | H : "="%char = base64_digit _ |- _ =>
          symmetry in H; apply base64_digit_not_pad in H; [contradiction|arith]
      | H : base64_digit _ = base64_digit _ |- _ =>
          apply base64_digit_inj in H; [|arith|arith]
      end.
  - f_equal; arith.
  - f_equal; [arith|f_equal; arith].
  - assert (r1 = r2) by (apply IH; auto; simpl in L; lia).
    subst. f_equal; [arith|f_equal; [arith|f_equal; arith]].
Qed.

Lemma toString_base64_inj l1 l2 :
  bytes l1 -> bytes l2 -> toString_base64 l1 = toString_base64 l2 -> l1 = l2.
Proof. apply (toString_base64_inj_below (S (length l1))). lia. Qed.

(** ** UTF-8 is injective on well-formed strings *)

Lemma Buffer_from_bytes_below n : forall s,
  (length s < n)%nat -> code_units s = true -> bytes (Buffer_from s).
Proof.
  induction n as [|n IH]; intros s L U; [lia|].
  destruct s as [|c rest]; [constructor|].
  simpl in U. apply andb_prop in U. destruct U as [Hc U].
  simpl in L. cbn [Buffer_from].
  assert (Hrest : bytes (Buffer_from rest)) by (apply IH; [lia|assumption]).
  destruct (c <? 128) eqn:E1; [constructor; [lia|assumption]|].
  destruct (c <? 2048) eqn:E2; [repeat constructor; try arith; assumption|].
  destruct (is_high_surrogate c) eqn:E3.
  - destruct rest as [|d rest']; [repeat constructor; lia|].
    destruct (is_low_surrogate d) eqn:E4.
    + simpl in U. apply andb_prop in U. destruct U as [Hd U].
      unfold code_point. bools.
      repeat (apply Forall_cons; split); try arith.
      apply IH; [simpl in L; lia|assumption].
    + repeat (apply Forall_cons; split); try lia. assumption.
  - destruct (is_low_surrogate c) eqn:E4.
    + repeat (apply Forall_cons; split); try lia. assumption.
    + repeat (apply Forall_cons; split); try arith. assumption.
Qed.

Lemma Buffer_from_bytes s : code_units s = true -> bytes (Buffer_from s).
Proof. apply (Buffer_from_bytes_below (S (length s))). lia. Qed.

Lemma Buffer_from_inj_below n : forall s1 s2,
  (length s1 < n)%nat ->
  code_units s1 = true -> code_units s2 = true ->
  isWellFormed s1 = true -> isWellFormed s2 = true ->
  Buffer_from s1 = Buffer_from s2 -> s1 = s2.
Proof.
  induction n as [|n IH]; intros s1 s2 L U1 U2 W1 W2 E; [lia|].
  destruct s1 as [|c1 r1]; destruct s2 as [|c2 r2]; [reflexivity| | |].
  - exfalso. cbn [Buffer_from isWellFormed] in *.
    destruct (is_high_surrogate c2) eqn:H2; [destruct r2; [discriminate|]|];
      split_ifs; discriminate.
  - exfalso. cbn [Buffer_from isWellFormed] in *.
    destruct (is_high_surrogate c1) eqn:H1; [destruct r1; [discriminate|]|];
      split_ifs; discriminate.
  - cbn [code_units forallb] in U1, U2.
    apply andb_prop in U1; destruct U1 as [R1 U1].
    apply andb_prop in U2; destruct U2 as [R2 U2].
    cbn [Buffer_from isWellFormed] in *.
    destruct (is_high_surrogate c1) eqn:H1;
      [destruct r1 as [|d1 r1]; [discriminate|];
       cbn [forallb] in U1; apply andb_prop in U1; destruct U1 as [S1 U1];
       apply andb_prop in W1; destruct W1 as [L1 W1]; rewrite L1 in E
      | destruct (is_low_surrogate c1) eqn:L1; [discriminate|] ];
    (destruct (is_high_surrogate c2) eqn:H2;
      [destruct r2 as [|d2 r2]; [discriminate|];
       cbn [forallb] in U2; apply andb_prop in U2; destruct U2 as [S2 U2];
       apply andb_prop in W2; destruct W2 as [L2 W2]; rewrite L2 in E
      | destruct (is_low_surrogate c2) eqn:L2; [discriminate|] ]);
    destruct (c1 <? 128) eqn:A1; destruct (c1 <? 2048) eqn:B1;
    destruct (c2 <? 128) eqn:A2; destruct (c2 <? 2048) eqn:B2;
    unfold code_point in E; bools;
    try (exfalso; lia);
    injection E; clear E; intros;
    try (exfalso; arith).
    all: simpl in L.
    all: match goal with
         | H : Buffer_from ?a = Buffer_from ?b |- _ =>
             assert (a = b) by (apply IH; auto; lia); subst
         end.
    all: repeat f_equal; arith.
Qed.

Lemma Buffer_from_inj s1 s2 :
  code_units s1 = true -> code_units s2 = true ->
  isWellFormed s1 = true -> isWellFormed s2 = true ->
  Buffer_from s1 = Buffer_from s2 -> s1 = s2.
Proof. apply (Buffer_from_inj_below (S (length s1))). lia. Qed.

Lemma append_inj_r (p s1 s2 : string) :
  (p ++ s1)%string = (p ++ s2)%string -> s1 = s2.
Proof. induction p as [|a p IH]; cbn; [auto|]. intros [= E]. auto. Qed.

Lemma cacheKey_inj operation s1 s2 :
  code_units s1 = true -> code_units s2 = true ->
  isWellFormed s1 = true -> isWellFormed s2 = true ->
  cacheKey operation s1 = cacheKey operation s2 -> s1 = s2.
Proof.
  intros U1 U2 W1 W2 E. unfold cacheKey in E. apply append_inj_r in E.
  apply toString_base64_inj in E; auto using Buffer_from_bytes.
  now apply Buffer_from_inj.
Qed.


(** ** Key derivation *)

(** C8, as stated, fails: the second half of the claim, that two
    different inputs never share a key, breaks on unpaired surrogates.
    The first code units of two different emoji (a description cut in
    the middle of a character) are different strings with one key, for
    both operations. *)
Lemma cut_emoji_share_a_key :
  [0xD83D] <> [0xD83E] /\
  code_units [0xD83D] = true /\ code_units [0xD83E] = true /\
  extract_cacheKey [0xD83D] = extract_cacheKey [0xD83E] /\
  geocode_cacheKey [0xD83D] = geocode_cacheKey [0xD83E].
Proof. split; [discriminate|]. vm_compute. auto. Qed.

(** C8, amended: key derivation is a function of the operation and the
    raw input (equal inputs, equal keys), and for inputs without an
    unpaired surrogate different inputs give different keys, for the
    extraction and for the geocoding key alike.  Nothing is trimmed or
    case-folded: inputs that differ in case or white space are
    different inputs. *)
Theorem cache_keys_deterministic_and_distinct s1 s2 :
  code_units s1 = true -> code_units s2 = true ->
  isWellFormed s1 = true -> isWellFormed s2 = true ->
  (s1 = s2 ->
     extract_cacheKey s1 = extract_cacheKey s2 /\
     geocode_cacheKey s1 = geocode_cacheKey s2) /\
  (s1 <> s2 ->
     extract_cacheKey s1 <> extract_cacheKey s2 /\
     geocode_cacheKey s1 <> geocode_cacheKey s2).
Proof.
  intros U1 U2 W1 W2. split.
  - intros ->. split; reflexivity.
  - intros Hne. split; intros E; apply Hne;
      eapply cacheKey_inj; eauto.
Qed.

Lemma cache_keys_deterministic_and_distinct_witness :
  (js "Paris, France" = js "Paris, France" ->
     extract_cacheKey (js "Paris, France") = extract_cacheKey (js "Paris, France") /\
     geocode_cacheKey (js "Paris, France") = geocode_cacheKey (js "Paris, France")) /\
  (js "Paris, France" <> js "Paris, france" ->
     extract_cacheKey (js "Paris, France") <> extract_cacheKey (js "Paris, france") /\
     geocode_cacheKey (js "Paris, France") <> geocode_cacheKey (js "Paris, france")).
Proof.
  split.
  - apply (cache_keys_deterministic_and_distinct
             (js "Paris, France") (js "Paris, France")); reflexivity.
  - apply (cache_keys_deterministic_and_distinct
             (js "Paris, France") (js "Paris, france")); reflexivity.
Defined.

(** ** What one call of the cache layer does *)

Ltac in_list H :=
  repeat (apply elem_of_cons in H; destruct H as [H | H]; [subst|]);
  try (apply elem_of_nil in H; contradiction).

Ltac member :=
  repeat first [apply list_elem_of_here | apply list_elem_of_further].

Lemma new_events_app w w' l : trace w' = trace w ++ l -> new_events w w' = l.
Proof. intros E. unfold new_events. rewrite E. apply drop_app_length. Qed.

Lemma cache_delete_run env key w :
  cache.delete env key w =
  (Return (is_up (medium env (io w))),
   await env (EvDelete key (medium env (io w)))
     (if is_up (medium env (io w))
      then delete key (table w) else table w) w).
Proof.
  unfold cache.delete, try_catch, bind, delete_eq.
  destruct (medium env (io w)); reflexivity.
Qed.

Lemma upsert_answer_of_object m v :
  is_null (JSON v) = false -> upsert_answer m v = m.
Proof. intros H. unfold upsert_answer. rewrite H. destruct m; reflexivity. Qed.

(** What [set] leaves behind: nothing at all when the expiry has no
    time value, and otherwise the one upsert. *)
Lemma cache_set_run env key v ttl w :
  cache.set env key v ttl w =
  if valid_time (now w + ttl * 60 * 1000) then
    (Return (is_up (upsert_answer (medium env (io w)) v)),
     await env
       (EvUpsert key v (now w + ttl * 60 * 1000)
          (upsert_answer (medium env (io w)) v))
       (if is_up (upsert_answer (medium env (io w)) v)
        then <[key := {| value := JSON v;
                         expires_at := now w + ttl * 60 * 1000 |}]>
               (table w)
        else table w) w)
  else (Return false, w).
Proof.
  unfold cache.set, try_catch, bind, toISOString, upsert, Date_now.
  destruct (valid_time (now w + ttl * 60 * 1000)); [|reflexivity].
  cbn. destruct (upsert_answer (medium env (io w)) v); reflexivity.
Qed.

(** The same for a value that JSON does not turn into [null], written
    while the expiry has a time value. *)
Lemma cache_set_valid env key v ttl w :
  valid_time (now w + ttl * 60 * 1000) = true ->
  is_null (JSON v) = false ->
  cache.set env key v ttl w =
  (Return (is_up (medium env (io w))),
   await env (EvUpsert key v (now w + ttl * 60 * 1000) (medium env (io w)))
     (if is_up (medium env (io w))
      then <[key := {| value := JSON v;
                       expires_at := now w + ttl * 60 * 1000 |}]>
             (table w)
      else table w) w).
Proof.
  intros Hv Hn. rewrite cache_set_run, Hv, (upsert_answer_of_object _ _ Hn).
  reflexivity.
Qed.

Lemma cache_set_returns env key v ttl w :
  exists b, cache.set env key v ttl w = (Return b, snd (cache.set env key v ttl w)).
Proof.
  rewrite cache_set_run. destruct (valid_time _); eexists; reflexivity.
Qed.

Lemma cache_set_clock env key v ttl w :
  now w <= now (snd (cache.set env key v ttl w)).
Proof. rewrite cache_set_run. destruct (valid_time _); cbn; lia. Qed.

(** The expiries of the resolver have a time value while the clock is
    in range. *)
Lemma valid_in_range w w' t ttl :
  Date_range w w' -> now w <= t <= now w' -> 0 <= ttl <= 1440 ->
  valid_time (t + ttl * 60 * 1000) = true.
Proof.
  unfold Date_range, valid_time, max_time. intros [Hlo Hhi] Ht Httl.
  apply andb_true_intro. split; [apply Z.leb_le|apply Z.leb_le]; lia.
Qed.

Lemma cache_get_run env key w :
  cache.get env key w =
  let w1 := await env (EvSelect key (medium env (io w))) (table w) w in
  match medium env (io w), table w !! key with
  | Up, Some row =>
      if expires_at row <? now w1
      then (Return JNull, snd (cache.delete env key w1))
      else (Return (value row), w1)
  | _, _ => (Return JNull, w1)
  end.
Proof.
  unfold cache.get, try_catch, bind, select_single, Date_now.
  destruct (medium env (io w)); [|reflexivity|reflexivity].
  destruct (table w !! key) as [row|]; [|reflexivity]. cbn.
  destruct (expires_at row <? _); [|reflexivity].
  rewrite cache_delete_run. reflexivity.
Qed.

Lemma cache_get_clock env key w :
  now w <= now (snd (cache.get env key w)).
Proof.
  rewrite cache_get_run. cbn zeta.
  destruct (medium env (io w)); [destruct (table w !! key) as [row|];
    [destruct (expires_at row <? _)|]|..];
    try rewrite cache_delete_run; cbn; lia.
Qed.

Lemma cache_get_returns env key w :
  exists c w1, cache.get env key w = (Return c, w1).
Proof.
  rewrite cache_get_run. cbn zeta.
  destruct (medium env (io w)); [destruct (table w !! key) as [row|];
    [destruct (expires_at row <? _)|]|..]; eexists _, _; reflexivity.
Qed.

Lemma cache_get_events env key w o w' :
  cache.get env key w = (o, w') ->
  new_events w w' = [EvSelect key (medium env (io w))] \/
  exists m, new_events w w' = [EvSelect key (medium env (io w)); EvDelete key m].
Proof.
  rewrite cache_get_run. cbn zeta.
  destruct (medium env (io w)) eqn:Hm;
    [destruct (table w !! key) as [row|];
       [destruct (expires_at row <? _)|]|..];
    intros [= <- <-];
    try (left; apply new_events_app; reflexivity).
  right. rewrite cache_delete_run. cbn. eexists.
  apply new_events_app. cbn. rewrite <- app_assoc. reflexivity.
Qed.

Lemma cache_get_fresh env key w row :
  table w !! key = Some row ->
  medium env (io w) = Up ->
  now w + Z.of_N (delay env (io w)) <= expires_at row ->
  cache.get env key w =
  (Return (value row), await env (EvSelect key Up) (table w) w).
Proof.
  intros Hrow Hup Ht. rewrite cache_get_run, Hup, Hrow. cbn.
  destruct (_ <? _) eqn:E; [lia|]. reflexivity.
Qed.

Lemma cache_get_absent env key w :
  table w !! key = None ->
  cache.get env key w =
  (Return JNull, await env (EvSelect key (medium env (io w))) (table w) w).
Proof.
  intros Hrow. rewrite cache_get_run, Hrow. cbn.
  destruct (medium env (io w)); reflexivity.
Qed.

(** ** Expiry *)

(** C2, as stated, fails at the boundary: [get] compares with
    [expires_at < now], so a read at the very millisecond of [expiresAt]
    still returns the value and leaves the entry in place. *)
Lemma read_at_expiry_returns_value :
  now (snd (cache.get Sample.nowhere "k" Sample.boundary_world))
    = expires_at Sample.boundary_row /\
  fst (cache.get Sample.nowhere "k" Sample.boundary_world)
    = Return (value Sample.boundary_row) /\
  table (snd (cache.get Sample.nowhere "k" Sample.boundary_world)) !! "k"
    = Some Sample.boundary_row.
Proof. vm_compute. auto. Qed.

(** C2, amended: for an entry that the medium hands out, a [get] whose
    comparison happens at a time [t <= expiresAt] returns the cached
    value and keeps the entry; a [get] at a time [t > expiresAt] returns
    a miss, whatever becomes of the deletion it issues first, and the
    entry is absent afterwards when the medium carries that deletion
    out.  [t] is the time at which the row comes back. *)
Theorem get_respects_expiry env key w row :
  table w !! key = Some row ->
  medium env (io w) = Up ->
  let t := now w + Z.of_N (delay env (io w)) in
  (t <= expires_at row ->
     exists w', cache.get env key w = (Return (value row), w')
                /\ table w' !! key = Some row) /\
  (expires_at row < t ->
     exists w', cache.get env key w = (Return JNull, w')
                /\ (exists m, new_events w w' = [EvSelect key Up; EvDelete key m])
                /\ (medium env (S (io w)) = Up -> table w' !! key = None)).
Proof.
  intros Hrow Hup t. rewrite cache_get_run, Hup, Hrow. cbn.
  split; intros Ht.
  - destruct (expires_at row <? _) eqn:E; [lia|].
    eexists. split; [reflexivity|]. exact Hrow.
  - destruct (expires_at row <? _) eqn:E; [|lia].
    rewrite cache_delete_run. cbn. eexists. split; [reflexivity|]. split.
    + eexists. apply new_events_app. cbn. rewrite <- app_assoc. reflexivity.
    + intros Hup'. cbn. rewrite Hup'. cbn. apply lookup_delete_eq.
Qed.

Lemma get_respects_expiry_witness :
  exists w',
    cache.get Sample.nowhere "k" Sample.stocked_world
      = (Return (JStr (js "old")), w')
    /\ table w' !! "k"
       = Some {| value := JStr (js "old");
                 expires_at := Sample.start + 60 * 60 * 1000 |}.
Proof.
  apply (get_respects_expiry Sample.nowhere "k" Sample.stocked_world
           {| value := JStr (js "old");
              expires_at := Sample.start + 60 * 60 * 1000 |});
    [reflexivity | reflexivity | vm_compute; discriminate].
Defined.

(** ** Failures of the storage medium *)

(** C6: whatever the medium does, [get], [set] and [delete] return and
    never throw; and when a call into the medium fails during one of
    them (an answer with [error] set, or a throw of the client), [get]
    returns the miss value [null], [set] and [delete] return [false],
    and the table is as it was. *)
Theorem storage_failures_are_swallowed env key v ttlMinutes w og wg os ws od wd :
  cache.get env key w = (og, wg) ->
  cache.set env key v ttlMinutes w = (os, ws) ->
  cache.delete env key w = (od, wd) ->
  ((exists r, og = Return r) /\ (exists b, os = Return b)
   /\ (exists b, od = Return b)) /\
  ((exists e, e ∈ new_events w wg /\ storage_failure e = true) ->
     og = Return JNull /\ table wg = table w) /\
  ((exists e, e ∈ new_events w ws /\ storage_failure e = true) ->
     os = Return false /\ table ws = table w) /\
  ((exists e, e ∈ new_events w wd /\ storage_failure e = true) ->
     od = Return false /\ table wd = table w).
Proof.
  rewrite cache_get_run, cache_delete_run. cbn zeta.
  intros Hg Hs [= <- <-].
  assert (Hset : (exists b, os = Return b) /\
                 ((exists e, e ∈ new_events w ws /\ storage_failure e = true) ->
                  os = Return false /\ table ws = table w)).
  { rewrite cache_set_run in Hs. destruct (valid_time _).
    - injection Hs as <- <-. split; [eexists; reflexivity|].
      intros (e & Hin & Hf).
      erewrite new_events_app in Hin by reflexivity. in_list Hin.
      cbn in Hf |- *.
      destruct (upsert_answer (medium env (io w)) v);
        [discriminate Hf|split; reflexivity..].
    - injection Hs as <- <-. split; [eexists; reflexivity|].
      intros _. split; reflexivity. }
  destruct Hset as [Hs1 Hs2].
  split; [split; [|split; [exact Hs1|eexists; reflexivity]]|].
  { destruct (medium env (io w)); [destruct (table w !! key) as [row|];
      [destruct (expires_at row <? _)|]|..];
      injection Hg as <- _; eexists; reflexivity. }
  split; [|split; [exact Hs2|]].
  - intros (e & Hin & Hf).
    destruct (medium env (io w)) eqn:Hm.
    + destruct (table w !! key) as [row|].
      * destruct (expires_at row <? _).
        -- rewrite cache_delete_run in Hg. cbn in Hg. injection Hg as <- <-.
           split; [reflexivity|]. cbn.
           erewrite new_events_app in Hin
             by (cbn; rewrite <- app_assoc; reflexivity).
           cbn in Hin. in_list Hin; [discriminate Hf|].
           cbn in Hf.
           destruct (medium env (S (io w))); [discriminate Hf|reflexivity..].
        -- injection Hg as <- <-.
           erewrite new_events_app in Hin by reflexivity.
           in_list Hin. discriminate Hf.
      * injection Hg as <- <-. erewrite new_events_app in Hin by reflexivity.
        in_list Hin. discriminate Hf.
    + injection Hg as <- <-. split; reflexivity.
    + injection Hg as <- <-. split; reflexivity.
  - intros (e & Hin & Hf).
    erewrite new_events_app in Hin by reflexivity. in_list Hin.
    cbn in Hf |- *.
    destruct (medium env (io w)); [discriminate Hf|split; reflexivity..].
Qed.

Lemma storage_failures_are_swallowed_witness :
  fst (cache.get Sample.storage_down "k" Sample.stocked_world) = Return JNull /\
  fst (cache.set Sample.storage_down "k" (JStr (js "v")) 60 Sample.stocked_world)
    = Return false /\
  fst (cache.delete Sample.storage_down "k" Sample.stocked_world) = Return false.
Proof.
  destruct (storage_failures_are_swallowed Sample.storage_down "k"
              (JStr (js "v")) 60 Sample.stocked_world
              _ _ _ _ _ _ eq_refl eq_refl eq_refl)
    as (_ & Hget & Hset & Hdelete).
  split; [|split].
  - apply Hget. exists (EvSelect "k" Crashes). split; [|reflexivity].
    vm_compute. member.
  - apply Hset.
    exists (EvUpsert "k" (JStr (js "v")) (Sample.start + 60 * 60 * 1000) Crashes).
    split; [|reflexivity]. vm_compute. member.
  - apply Hdelete. exists (EvDelete "k" Crashes). split; [|reflexivity].
    vm_compute. member.
Defined.

(** ** Upsert *)




(** ** The provider blocks *)

(** An expiry without a time value contradicts a clock in range. *)
Ltac out_of_range V HR :=
  exfalso; destruct HR as [? ?]; cbn in *;
  unfold valid_time, max_time in *;
  apply andb_false_iff in V; destruct V as [V | V]; apply Z.leb_gt in V; lia.

Ltac fallen :=
  intros [= <- <-] _; eexists; split; [reflexivity|]; cbn;
  split; [reflexivity|]; split; [lia|];
  first
    [ left; split; [reflexivity|]; auto; fail
    | right; eexists; split; [reflexivity|]; split; [reflexivity|];
      split; [|congruence];
      cbn; repeat match goal with H : _ = _ |- _ => rewrite H end; reflexivity ].

Ltac matched :=
  rewrite cache_set_run, !upsert_answer_of_object by reflexivity;
  match goal with
  | |- context [valid_time ?t] =>
      let V := fresh "V" in let HR := fresh "HR" in
      destruct (valid_time t) eqn:V; cbn; intros [= <- <-] HR;
      [|out_of_range V HR]
  end;
  eexists; split; [reflexivity|];
  eexists _, _, _; cbn; rewrite <- app_assoc; cbn;
  split; [reflexivity|]; split; [reflexivity|]; split;
  [ cbn; repeat match goal with H : _ = _ |- _ => rewrite H end; reflexivity |];
  split; [reflexivity|]; split; [congruence|]; split; [cbn; lia|];
  let Hup := fresh "Hup" in
  intros Hup; rewrite Hup; cbn; apply lookup_insert_eq.

Lemma tryGoogleMaps_run env name key w o w' :
  tryGoogleMaps env name key w = (o, w') ->
  Date_range w w' ->
  exists x, o = Return x /\
    match x with
    | None => fell_through GoogleMaps env name w w'
    | Some r => returned GoogleMaps name key r w w'
    end.
Proof.
  unfold tryGoogleMaps, fell_through, returned. cbn [is_configured].
  destruct (configured (GOOGLE_MAPS_API_KEY env)) as [k|] eqn:K; [|fallen].
  unfold try_catch, bind, encode.
  destruct (encodeURIComponent name) as [a|] eqn:U; cbn; [|fallen].
  unfold fetch_google.
  destruct (google_maps env (io w) (google_url a k)) as [d|] eqn:G; [|fallen].
  destruct (str_eq (status d) (js "OK")) eqn:S; [|fallen].
  destruct (results d) as [|first rest] eqn:R; [fallen|matched].
Qed.

Lemma tryMapbox_run env name key w o w' :
  tryMapbox env name key w = (o, w') ->
  Date_range w w' ->
  exists x, o = Return x /\
    match x with
    | None => fell_through Mapbox env name w w'
    | Some r => returned Mapbox name key r w w'
    end.
Proof.
  unfold tryMapbox, fell_through, returned. cbn [is_configured].
  destruct (configured (MAPBOX_API_KEY env)) as [k|] eqn:K; [|fallen].
  unfold try_catch, bind, encode.
  destruct (encodeURIComponent name) as [a|] eqn:U; cbn; [|fallen].
  unfold fetch_mapbox.
  destruct (mapbox env (io w) (mapbox_url a k)) as [d|] eqn:G; [|fallen].
  destruct (features d) as [[|feature rest]|] eqn:F; [fallen|matched|fallen].
Qed.

(** The blocks never throw, and never turn the clock back. *)
Ltac calm := eexists; split; [reflexivity|cbn; lia].

Ltac settled :=
  rewrite cache_set_run; destruct (valid_time _); cbn; calm.

Lemma tryGoogleMaps_returns env name key w :
  exists x, tryGoogleMaps env name key w
            = (Return x, snd (tryGoogleMaps env name key w))
            /\ now w <= now (snd (tryGoogleMaps env name key w)).
Proof.
  unfold tryGoogleMaps.
  destruct (configured (GOOGLE_MAPS_API_KEY env)) as [k|]; [|calm].
  unfold try_catch, bind, encode.
  destruct (encodeURIComponent name) as [a|]; cbn; [|calm].
  unfold fetch_google.
  destruct (google_maps env (io w) (google_url a k)) as [d|]; [|calm].
  destruct (str_eq (status d) (js "OK")); [|calm].
  destruct (results d) as [|first rest]; [calm|settled].
Qed.

Lemma tryMapbox_returns env name key w :
  exists x, tryMapbox env name key w
            = (Return x, snd (tryMapbox env name key w))
            /\ now w <= now (snd (tryMapbox env name key w)).
Proof.
  unfold tryMapbox.
  destruct (configured (MAPBOX_API_KEY env)) as [k|]; [|calm].
  unfold try_catch, bind, encode.
  destruct (encodeURIComponent name) as [a|]; cbn; [|calm].
  unfold fetch_mapbox.
  destruct (mapbox env (io w) (mapbox_url a k)) as [d|]; [|calm].
  destruct (features d) as [[|feature rest]|]; [calm|settled|calm].
Qed.

Lemma Date_range_within w a b w' :
  Date_range w w' -> now w <= now a -> now b <= now w' -> Date_range a b.
Proof. unfold Date_range. lia. Qed.

Section Chain.

Variable parseFloat : jsstring -> float.

Lemma tryOpenStreetMap_run env name key w o w' :
  tryOpenStreetMap parseFloat env name key w = (o, w') ->
  Date_range w w' ->
  exists x, o = Return x /\
    match x with
    | None => fell_through OpenStreetMap env name w w'
    | Some r => returned OpenStreetMap name key r w w'
    end.
Proof.
  unfold tryOpenStreetMap, fell_through, returned. cbn [is_configured].
  unfold try_catch, bind, encode.
  destruct (encodeURIComponent name) as [a|] eqn:U; cbn; [|fallen].
  unfold fetch_nominatim.
  destruct (nominatim env (io w) (nominatim_url a)) as [[|location rest]|] eqn:G;
    [fallen|matched|fallen].
Qed.

Lemma tryOpenStreetMap_returns env name key w :
  exists x, tryOpenStreetMap parseFloat env name key w
            = (Return x, snd (tryOpenStreetMap parseFloat env name key w))
            /\ now w <= now (snd (tryOpenStreetMap parseFloat env name key w)).
Proof.
  unfold tryOpenStreetMap, try_catch, bind, encode.
  destruct (encodeURIComponent name) as [a|]; cbn; [|calm].
  unfold fetch_nominatim.
  destruct (nominatim env (io w) (nominatim_url a)) as [[|location rest]|];
    [calm|settled|calm].
Qed.

(** The provider chain returns a geocoding object for every name, a
    string or an object. *)
Lemma tryProviders_returns env (name : Name) key w :
  exists r w', tryProviders parseFloat env name key w = (Return (JGeo r), w')
               /\ now w <= now w'.
Proof.
  unfold tryProviders, bind.
  destruct (tryGoogleMaps_returns env (ToString name) key w) as (og & Eg & Ng).
  remember (snd (tryGoogleMaps env (ToString name) key w)) as wg eqn:Wg.
  destruct (tryMapbox_returns env (ToString name) key wg) as (om & Em & Nm).
  remember (snd (tryMapbox env (ToString name) key wg)) as wm eqn:Wm.
  destruct (tryOpenStreetMap_returns env (ToString name) key wm)
    as (oo & Eo & No).
  remember (snd (tryOpenStreetMap parseFloat env (ToString name) key wm))
    as wo eqn:Wo.
  destruct (cache_set_returns env key (JGeo (unresolved name)) 60 wo) as (b & Es).
  pose proof (cache_set_clock env key (JGeo (unresolved name)) 60 wo) as Ns.
  rewrite Eg. destruct og as [r|]; [eexists _, _; split; [reflexivity|lia]|].
  rewrite Em. destruct om as [r|]; [eexists _, _; split; [reflexivity|lia]|].
  rewrite Eo. destruct oo as [r|]; [eexists _, _; split; [reflexivity|lia]|].
  rewrite Es. eexists _, _. split; [reflexivity|lia].
Qed.

(** While the clock is in range, the provider chain for a string goes
    one of the four ways of [resolution]. *)
Lemma tryProviders_run env (name : jsstring) key w o w' :
  tryProviders parseFloat env name key w = (o, w') ->
  Date_range w w' ->
  exists r, o = Return (JGeo r) /\ resolution env name key w r w'.
Proof.
  unfold tryProviders, bind. cbn [ToString].
  destruct (tryGoogleMaps_returns env name key w) as (og & Eg & Ng).
  destruct (tryMapbox_returns env name key
              (snd (tryGoogleMaps env name key w))) as (om & Em & Nm).
  destruct (tryOpenStreetMap_returns env name key
              (snd (tryMapbox env name key
                      (snd (tryGoogleMaps env name key w)))))
    as (oo & Eo & No).
  pose proof (cache_set_clock env key (JGeo (unresolved name)) 60
                (snd (tryOpenStreetMap parseFloat env name key
                        (snd (tryMapbox env name key
                                (snd (tryGoogleMaps env name key w)))))))
    as Ns.
  remember (snd (tryGoogleMaps env name key w)) as wg eqn:Wg.
  remember (snd (tryMapbox env name key wg)) as wm eqn:Wm.
  remember (snd (tryOpenStreetMap parseFloat env name key wm)) as wo eqn:Wo.
  rewrite Eg. destruct og as [r|].
  { intros [= <- <-] HR.
    destruct (tryGoogleMaps_run _ _ _ _ _ _ Eg HR) as (x & [= <-] & Hg).
    eexists. split; [reflexivity|]. now apply by_google. }
  rewrite Em. destruct om as [r|].
  { intros [= <- <-] HR.
    destruct (tryGoogleMaps_run _ _ _ _ _ _ Eg
                (Date_range_within _ w wg _ HR ltac:(lia) ltac:(lia)))
      as (x & [= <-] & Hg).
    destruct (tryMapbox_run _ _ _ _ _ _ Em
                (Date_range_within _ wg wm _ HR ltac:(lia) ltac:(lia)))
      as (x & [= <-] & Hm).
    eexists. split; [reflexivity|]. now apply by_mapbox with wg. }
  rewrite Eo. destruct oo as [r|].
  { intros [= <- <-] HR.
    destruct (tryGoogleMaps_run _ _ _ _ _ _ Eg
                (Date_range_within _ w wg _ HR ltac:(lia) ltac:(lia)))
      as (x & [= <-] & Hg).
    destruct (tryMapbox_run _ _ _ _ _ _ Em
                (Date_range_within _ wg wm _ HR ltac:(lia) ltac:(lia)))
      as (x & [= <-] & Hm).
    destruct (tryOpenStreetMap_run _ _ _ _ _ _ Eo
                (Date_range_within _ wm wo _ HR ltac:(lia) ltac:(lia)))
      as (x & [= <-] & Ho).
    eexists. split; [reflexivity|]. now apply by_openstreetmap with wg wm. }
  rewrite cache_set_run, upsert_answer_of_object in * by reflexivity.
  destruct (valid_time (now wo + 60 * 60 * 1000)) eqn:V;
    cbn; intros [= <- <-] HR.
  2:{ exfalso. destruct HR as [Hlo Hhi]. unfold valid_time, max_time in *.
      apply andb_false_iff in V. destruct V as [V | V]; apply Z.leb_gt in V; lia. }
  cbn in Ns.
  destruct (tryGoogleMaps_run _ _ _ _ _ _ Eg
              (Date_range_within _ w wg _ HR ltac:(lia) ltac:(cbn; lia)))
    as (x & [= <-] & Hg).
  destruct (tryMapbox_run _ _ _ _ _ _ Em
              (Date_range_within _ wg wm _ HR ltac:(lia) ltac:(cbn; lia)))
    as (x & [= <-] & Hm).
  destruct (tryOpenStreetMap_run _ _ _ _ _ _ Eo
              (Date_range_within _ wm wo _ HR ltac:(lia) ltac:(cbn; lia)))
    as (x & [= <-] & Ho).
  eexists. split; [reflexivity|]. now apply exhausted with wg wm.
Qed.

End Chain.

(** *** Whatever the clock shows *)

Ltac quiet :=
  eexists _, _; split; [reflexivity|]; cbn;
  split; [reflexivity|]; split; [lia|];
  first
    [ left; split; [reflexivity|]; auto; fail
    | right; eexists; split; [reflexivity|]; split;
      [ eexists _, _; split; [eassumption|]; split;
        [ cbn; repeat match goal with H : _ = _ |- _ => rewrite H end; reflexivity
        | reflexivity ]
      | cbn; repeat match goal with H : _ = _ |- _ => rewrite H end; reflexivity ] ].

Ltac won :=
  match goal with
  | |- context [cache.set ?env ?key ?v ?ttl ?wl] =>
      let b := fresh "b" in let Es := fresh "Es" in
      let ws := fresh "ws" in let Ws := fresh "Ws" in
      destruct (cache_set_returns env key v ttl wl) as (b & Es);
      remember (snd (cache.set env key v ttl wl)) as ws eqn:Ws;
      rewrite Es; clear Es; symmetry in Ws; cbn;
      eexists _, _; split; [reflexivity|];
      eexists _, wl; cbn;
      split; [reflexivity|]; split; [reflexivity|]; split; [lia|];
      split;
      [ eexists _, _; split; [eassumption|]; split;
        [ cbn; repeat match goal with H : _ = _ |- _ => rewrite H end; reflexivity
        | reflexivity ] |];
      split;
      [ cbn; repeat match goal with H : _ = _ |- _ => rewrite H end; reflexivity |];
      split;
      [ cbn; repeat match goal with H : _ = _ |- _ => rewrite H end; reflexivity |];
      split;
      [ unfold built_by, confidence_of; cbn; split;
        first [ reflexivity | left; reflexivity | right; reflexivity
              | destruct (PrimFloat.ltb _ _); [left|right]; reflexivity ] |];
      symmetry; exact Ws
  end.

Section Blocks.

Variable parseFloat : jsstring -> float.

Lemma tryGoogleMaps_detail env name key w :
  exists o w', tryGoogleMaps env name key w = (Return o, w') /\
    block_run parseFloat GoogleMaps env name key w o w'.
Proof.
  unfold tryGoogleMaps, block_run. cbn [is_configured].
  destruct (configured (GOOGLE_MAPS_API_KEY env)) as [k|] eqn:K; [|quiet].
  unfold try_catch, bind, encode.
  destruct (encodeURIComponent name) as [a|] eqn:U; cbn; [|quiet].
  unfold fetch_google.
  destruct (google_maps env (io w) (google_url a k)) as [d|] eqn:G; [|quiet].
  destruct (str_eq (status d) (js "OK")) eqn:S; [|quiet].
  destruct (results d) as [|first rest] eqn:R; [quiet|won].
Qed.

Lemma tryMapbox_detail env name key w :
  exists o w', tryMapbox env name key w = (Return o, w') /\
    block_run parseFloat Mapbox env name key w o w'.
Proof.
  unfold tryMapbox, block_run. cbn [is_configured].
  destruct (configured (MAPBOX_API_KEY env)) as [k|] eqn:K; [|quiet].
  unfold try_catch, bind, encode.
  destruct (encodeURIComponent name) as [a|] eqn:U; cbn; [|quiet].
  unfold fetch_mapbox.
  destruct (mapbox env (io w) (mapbox_url a k)) as [d|] eqn:G; [|quiet].
  destruct (features d) as [[|feature rest]|] eqn:F; [quiet|won|quiet].
Qed.

Lemma tryOpenStreetMap_detail env name key w :
  exists o w', tryOpenStreetMap parseFloat env name key w = (Return o, w') /\
    block_run parseFloat OpenStreetMap env name key w o w'.
Proof.
  unfold tryOpenStreetMap, block_run. cbn [is_configured].
  unfold try_catch, bind, encode.
  destruct (encodeURIComponent name) as [a|] eqn:U; cbn; [|quiet].
  unfold fetch_nominatim.
  destruct (nominatim env (io w) (nominatim_url a)) as [[|location rest]|] eqn:G;
    [quiet|won|quiet].
Qed.

(** A block that falls through, as a list of requests. *)
Lemma block_fell p env name key w w' :
  block_run parseFloat p env name key w None w' ->
  table w' = table w /\ now w <= now w' /\
  exists l, trace w' = trace w ++ l
    /\ Forall (fun e => exists q, requested q env name e) l
    /\ Forall (fun e => answer_matches e = false) l
    /\ (l = [] -> is_configured env p = false \/ encodeURIComponent name = None).
Proof.
  intros (T & N & [[Tr C] | (e & Tr & Q & A)]); split; try assumption;
    split; try assumption.
  - exists []. rewrite app_nil_r. repeat split; auto.
  - exists [e]. repeat split; auto; try (repeat constructor; eauto).
    discriminate.
Qed.

Lemma tryProviders_detail env (name : jsstring) key w :
  exists r w', tryProviders parseFloat env name key w = (Return (JGeo r), w')
    /\ chain_run parseFloat env name key w r w'.
Proof.
  unfold tryProviders, bind, chain_run. cbn [ToString].
  destruct (tryGoogleMaps_detail env name key w) as (og & wg & Eg & Hg).
  rewrite Eg. destruct og as [r|].
  { eexists _, _. split; [reflexivity|].
    destruct Hg as (e & wl & Tr & Tb & N & Q & A & R & B & W).
    exists [e], wl, 1440. repeat split; try assumption.
    - repeat constructor. eauto.
    - discriminate.
    - left. repeat split; eauto. exists [], e. repeat split; auto. }
  apply block_fell in Hg. destruct Hg as (Tg & Ng & lg & Trg & Rg & Mg & Cg).
  destruct (tryMapbox_detail env name key wg) as (om & wm & Em & Hm).
  rewrite Em. destruct om as [r|].
  { eexists _, _. split; [reflexivity|].
    destruct Hm as (e & wl & Tr & Tb & N & Q & A & R & B & W).
    exists (lg ++ [e]), wl, 1440.
    split; [rewrite Tr, Trg, <- app_assoc; reflexivity|].
    split; [congruence|]. split; [lia|]. split; [assumption|].
    split; [apply Forall_app; split; [assumption|repeat constructor; eauto]|].
    split; [intros _ H; destruct lg; discriminate H|].
    left. repeat split; eauto.
    exists lg, e. repeat split; auto. }
  apply block_fell in Hm. destruct Hm as (Tm & Nm & lm & Trm & Rm & Mm & Cm).
  destruct (tryOpenStreetMap_detail env name key wm) as (oo & wo & Eo & Ho).
  rewrite Eo. destruct oo as [r|].
  { eexists _, _. split; [reflexivity|].
    destruct Ho as (e & wl & Tr & Tb & N & Q & A & R & B & W).
    exists ((lg ++ lm) ++ [e]), wl, 1440.
    split; [rewrite Tr, Trm, Trg, <- !app_assoc; reflexivity|].
    split; [congruence|]. split; [lia|]. split; [assumption|].
    split; [repeat (apply Forall_app; split); [assumption..|repeat constructor; eauto]|].
    split; [intros _ H; destruct (lg ++ lm); discriminate H|].
    left. repeat split; eauto.
    exists (lg ++ lm), e. repeat split; auto. apply Forall_app; auto. }
  apply block_fell in Ho. destruct Ho as (To & No & lo & Tro & Ro & Mo & Co).
  destruct (cache_set_returns env key (JGeo (unresolved name)) 60 wo) as (b & Es).
  remember (snd (cache.set env key (JGeo (unresolved name)) 60 wo)) as ws eqn:Ws.
  rewrite Es. eexists _, _. split; [reflexivity|].
  exists (lg ++ lm ++ lo), wo, 60.
  split; [rewrite Tro, Trm, Trg, <- !app_assoc; reflexivity|].
  split; [congruence|]. split; [lia|]. split; [assumption|].
  split; [repeat (apply Forall_app; split); assumption|].
  split.
  - intros Hu H. apply app_eq_nil in H. destruct H as [_ H].
    apply app_eq_nil in H. destruct H as [_ H].
    destruct (Co H) as [C | C]; [discriminate C|contradiction].
  - right. split; [reflexivity|]. split; [reflexivity|].
    repeat (apply Forall_app; split); assumption.
Qed.

(** What the call of [cache.set] at the end of a chain adds to the
    trace: nothing, or the write; and it leaves all other keys alone. *)
Lemma cache_set_trace env key v ttl w :
  (trace (snd (cache.set env key v ttl w)) = trace w
   \/ exists m,
        trace (snd (cache.set env key v ttl w))
        = trace w ++ [EvUpsert key v (now w + ttl * 60 * 1000) m]) /\
  (forall other, other <> key ->
     table (snd (cache.set env key v ttl w)) !! other = table w !! other).
Proof.
  rewrite cache_set_run. destruct (valid_time _); cbn.
  - split; [right; eexists; reflexivity|].
    intros other Hne.
    destruct (is_up _); [apply lookup_insert_ne; congruence|reflexivity].
  - split; [left; reflexivity|reflexivity].
Qed.

Lemma geocodeLocation_miss name env w c w1 :
  cache.get env (geocode_cacheKey name) w = (Return c, w1) ->
  truthy c = false ->
  exists r w',
    geocodeLocation parseFloat env (JStr name) w = (Return (JGeo r), w')
    /\ chain_run parseFloat env name (geocode_cacheKey name) w1 r w'.
Proof.
  intros Hget Hc. unfold geocodeLocation, bind. rewrite Hget, Hc.
  apply tryProviders_detail.
Qed.

Lemma requested_is_request p env name e :
  requested p env name e ->
  provider_of e = Some p /\ is_configured env p = true
  /\ encodeURIComponent name <> None.
Proof.
  intros (a & url & Ha & Hurl & Hreq). split; [|split; [|congruence]].
  - destruct e; cbn in Hreq; try discriminate; injection Hreq as <- _; reflexivity.
  - destruct p; cbn in Hurl |- *; [| |reflexivity].
    + destruct (configured (GOOGLE_MAPS_API_KEY env)); [|discriminate].
      apply bool_decide_eq_true. discriminate.
    + destruct (configured (MAPBOX_API_KEY env)); [|discriminate].
      apply bool_decide_eq_true. discriminate.
Qed.

(** The requests of a chain, read off the trace: the requests [evs],
    then what [cache.set] adds, [wr]. *)
Lemma chain_requests name env key w r w' :
  chain_run parseFloat env name key w r w' ->
  exists evs wr,
    trace w' = trace w ++ evs ++ wr
    /\ Forall (fun e => exists p, requested p env name e) evs
    /\ (encodeURIComponent name <> None -> evs <> [])
    /\ (forall e, e ∈ wr -> provider_of e = None
                             /\ storage_key e = Some key
                             /\ answer_matches e = false)
    /\ (forall other, other <> key -> table w' !! other = table w !! other)
    /\ (((exists p, built_by p r)
         /\ exists evs0 e, evs = evs0 ++ [e] /\ answer_matches e = true
                           /\ result_of parseFloat e = Some r
                           /\ Forall (fun e0 => answer_matches e0 = false) evs0)
        \/ (r = unresolved name
            /\ Forall (fun e => answer_matches e = false) evs)).
Proof.
  intros (evs & wl & ttl & Tr & Tb & N & W & Hall & Hne & Hway).
  assert (Hway' :
    ((exists p, built_by p r)
     /\ exists evs0 e, evs = evs0 ++ [e] /\ answer_matches e = true
                       /\ result_of parseFloat e = Some r
                       /\ Forall (fun e0 => answer_matches e0 = false) evs0)
    \/ (r = unresolved name
        /\ Forall (fun e => answer_matches e = false) evs))
    by (destruct Hway as [(_ & H) | (_ & H)]; [left|right]; exact H).
  destruct (cache_set_trace env key (JGeo r) ttl wl) as ([T | [m T]] & Hframe);
    rewrite <- W in *.
  - exists evs, []. rewrite app_nil_r.
    split; [congruence|].
    split; [assumption|]. split; [assumption|].
    split; [intros e Hin; in_list Hin|].
    split; [|assumption].
    intros other Hne'. rewrite Hframe, Tb by assumption. reflexivity.
  - exists evs, [EvUpsert key (JGeo r) (now wl + ttl * 60 * 1000) m].
    split; [rewrite T, Tr, <- app_assoc; reflexivity|].
    split; [assumption|]. split; [assumption|].
    split; [intros e Hin; in_list Hin; repeat split; reflexivity|].
    split; [|assumption].
    intros other Hne'. rewrite Hframe, Tb by assumption. reflexivity.
Qed.

End Blocks.

(** ** The fallback chain *)

Ltac open_fell H :=
  let T := fresh "T" in let N := fresh "N" in let Tr := fresh "Tr" in
  let C := fresh "C" in let e := fresh "e" in let P := fresh "P" in
  let A := fresh "A" in let U := fresh "U" in
  destruct H as (T & N & [[Tr C] | (e & Tr & P & A & U)]).

Ltac open_returned H :=
  let e := fresh "e" in let t := fresh "t" in let m := fresh "m" in
  let Tr := fresh "Tr" in let P := fresh "P" in let A := fresh "A" in
  let I := fresh "I" in let B := fresh "B" in let U := fresh "U" in
  let K := fresh "K" in
  destruct H as (e & t & m & Tr & P & A & I & U & B & K).

(** From the hypotheses on the traces of the intermediate worlds, the
    list of events between [w] and [w']. *)
Ltac events_of w w' :=
  match goal with
  | H : trace w' = _ |- _ =>
      repeat match type of H with
        | _ = ?rhs =>
            match rhs with
            | context [trace ?x] =>
                match goal with
                | H' : trace x = _ |- _ => rewrite H' in H
                end
            end
        end;
      rewrite <- ?app_assoc in H; cbn [app] in H;
      let E := fresh "Evs" in
      pose proof (new_events_app w w' _ H) as E;
      rewrite E in *
  end.

Ltac order_ok :=
  cbn;
  repeat match goal with
    | H : provider_of ?e = _ |- context [provider_of ?e] => rewrite H; cbn
    end;
  reflexivity.

Ltac earlier_ok :=
  let e := fresh "e" in let p := fresh "p" in let q := fresh "q" in
  let Hin := fresh "Hin" in let Hp := fresh "Hp" in let Hlt := fresh "Hlt" in
  intros e p q Hin Hp Hlt; in_list Hin;
  match type of Hp with
  | provider_of (EvUpsert _ _ _ _) = _ => discriminate Hp
  | provider_of ?x = _ =>
      match goal with
      | H : provider_of x = _ |- _ => rewrite H in Hp; injection Hp as <-
      end
  end;
  destruct q; cbn in Hlt; try lia;
  repeat match goal with
    | H : _ \/ encodeURIComponent _ = None |- _ =>
        destruct H as [H | H]; [|congruence]
    end;
  first
    [ left; assumption
    | right;
      match goal with
      | H : provider_of ?x = Some ?q
        |- exists e', _ /\ provider_of e' = Some ?q /\ _ =>
          exists x; split; [member|]; split; assumption
      end ].

Ltac winner_ok t m :=
  let e := fresh "e" in let Hin := fresh "Hin" in let Hm := fresh "Hm" in
  intros e Hin Hm; in_list Hin;
  try (cbn in Hm; congruence);
  eexists _, t, m;
  let close :=
    (split; [eassumption|]); (split; [eassumption|]);
    (split; [reflexivity|]); (split; [lia|assumption]) in
  first [ exists []; close | eexists [_]; close | eexists [_; _]; close ].

Ltac tried_ok :=
  let p := fresh "p" in let Hc := fresh "Hc" in let Hu := fresh "Hu" in
  let He := fresh "He" in
  intros p Hc Hu He;
  repeat match goal with
    | H : _ \/ encodeURIComponent _ = None |- _ =>
        destruct H as [H | H]; [|contradiction]
    end;
  destruct p;
  try congruence;
  first
    [ match goal with
      | H : provider_of ?x = Some ?q |- exists e', _ /\ provider_of e' = Some ?q =>
          exists x; split; [member|assumption]
      end
    | exfalso;
      match goal with
      | A : answer_matches ?x = true, P : provider_of ?x = Some ?q |- _ =>
          assert (answer_matches x = false)
            by (apply (He x q); [member | assumption | cbn; lia]);
          congruence
      end ].

Ltac silent_ok :=
  let e := fresh "e" in let Hn := fresh "Hn" in let Hin := fresh "Hin" in
  intros Hn e Hin; in_list Hin; first [reflexivity | contradiction].

Section Resolver.

Variable parseFloat : jsstring -> float.

(** C1: when the cache lookup of [geocodeLocation] misses, the
    resolution returns a geocoding object and never throws, and, while
    the clock is in the range of [Date], among the events after the
    lookup:
    - the requests to providers come in the order Google Maps, Mapbox,
      OpenStreetMap, each provider at most once;
    - a provider is tried: when it has its credentials (OpenStreetMap
      needs none), the name can be encoded, and every request to an
      earlier provider came back without a match, the provider is
      requested; a name that cannot be encoded makes every block throw
      before its request, so that no provider is requested at all;
    - a provider is requested only if every earlier provider has no
      credentials, or was requested and its answer had no match (zero
      matches, or an error, which the block catches);
    - a request whose answer has a match names the result
      ([geocoding_provider] is the identifier of that provider), it is
      followed by the write of the result with expiry 1440 minutes
      after the time [t] of the write, and by nothing else: no later
      provider is requested; the entry, in its JSON form, is in the
      table when the medium took the write. *)
Theorem fallback_chain_order name env w c w1 o w' :
  cache.get env (geocode_cacheKey name) w = (Return c, w1) ->
  truthy c = false ->
  geocodeLocation parseFloat env (JStr name) w = (o, w') ->
  Date_range w w' ->
  exists r, o = Return (JGeo r) /\
    ascending (map priority (omap provider_of (new_events w1 w'))) = true /\
    (forall p, is_configured env p = true ->
       encodeURIComponent name <> None ->
       (forall e q, e ∈ new_events w1 w' -> provider_of e = Some q ->
          (priority q < priority p)%nat -> answer_matches e = false) ->
       exists e, e ∈ new_events w1 w' /\ provider_of e = Some p) /\
    (encodeURIComponent name = None ->
       forall e, e ∈ new_events w1 w' -> provider_of e = None) /\
    (forall e p q, e ∈ new_events w1 w' -> provider_of e = Some p ->
       (priority q < priority p)%nat ->
       is_configured env q = false \/
       exists e', e' ∈ new_events w1 w' /\ provider_of e' = Some q
                  /\ answer_matches e' = false) /\
    (forall e, e ∈ new_events w1 w' -> answer_matches e = true ->
       exists p t m evs0,
         provider_of e = Some p /\
         geocoding_provider r = Some (provider_id p) /\
         new_events w1 w' =
           evs0 ++ [e; EvUpsert (geocode_cacheKey name) (JGeo r)
                         (t + 1440 * 60 * 1000) m] /\
         now w1 <= t <= now w' /\
         (m = Up ->
            table w' !! geocode_cacheKey name =
            Some {| value := JSON (JGeo r);
                    expires_at := t + 1440 * 60 * 1000 |})).
Proof.
  intros Hget Hc Hrun HR.
  unfold geocodeLocation, bind in Hrun. rewrite Hget, Hc in Hrun.
  assert (HR1 : Date_range w1 w').
  { pose proof (cache_get_clock env (geocode_cacheKey name) w) as N.
    rewrite Hget in N. destruct HR. split; [cbn in N; lia|assumption]. }
  destruct (tryProviders_run parseFloat env name (geocode_cacheKey name) w1
              _ _ Hrun HR1) as (r & -> & Hres).
  clear Hrun HR HR1.
  exists r. split; [reflexivity|].
  destruct Hres
    as [r w2 Hg | r wg w2 Hg Hm | r wg wm w2 Hg Hm Ho | wg wm wo Hg Hm Ho].
  - open_returned Hg. events_of w1 w2.
    split; [order_ok|]. split; [tried_ok|]. split; [silent_ok|].
    split; [earlier_ok|winner_ok t m].
  - open_fell Hg; open_returned Hm; events_of w1 w2;
      (split; [order_ok|]); (split; [tried_ok|]); (split; [silent_ok|]);
      (split; [earlier_ok|winner_ok t m]).
  - open_fell Hg; open_fell Hm; open_returned Ho; events_of w1 w2;
      (split; [order_ok|]); (split; [tried_ok|]); (split; [silent_ok|]);
      (split; [earlier_ok|winner_ok t m]).
  - match goal with |- context [new_events w1 ?w] =>
      remember w as w2 eqn:W2;
      assert (Tr2 : trace w2 = trace wo ++ [EvUpsert (geocode_cacheKey name)
                (JGeo (unresolved name)) (now wo + 60 * 60 * 1000)
                (medium env (io wo))])
        by (subst w2; reflexivity)
    end.
    open_fell Hg; open_fell Hm; open_fell Ho; events_of w1 w2;
      (split; [order_ok|]); (split; [tried_ok|]); (split; [silent_ok|]);
      (split; [earlier_ok|winner_ok 0 Up]).
Qed.

End Resolver.

Ltac in_range := split; vm_compute; discriminate.

(** Google Maps is tried and fails, Mapbox has a match: the result is
    the one of Mapbox. *)
Lemma fallback_chain_order_witness :
  exists r p t m evs0,
    fst (geocodeLocation Sample.parseFloat Sample.second_provider
           (JStr Sample.place) Sample.empty_world) = Return (JGeo r) /\
    (exists e,
       e ∈ new_events
             (snd (cache.get Sample.second_provider
                     (geocode_cacheKey Sample.place) Sample.empty_world))
             (snd (geocodeLocation Sample.parseFloat Sample.second_provider
                     (JStr Sample.place) Sample.empty_world))
       /\ provider_of e = Some GoogleMaps) /\
    provider_of Sample.mapbox_request = Some p /\
    geocoding_provider r = Some (provider_id p) /\
    new_events
      (snd (cache.get Sample.second_provider (geocode_cacheKey Sample.place)
              Sample.empty_world))
      (snd (geocodeLocation Sample.parseFloat Sample.second_provider
              (JStr Sample.place) Sample.empty_world))
    = evs0 ++ [Sample.mapbox_request;
               EvUpsert (geocode_cacheKey Sample.place) (JGeo r)
                 (t + 1440 * 60 * 1000) m].
Proof.
  destruct (fallback_chain_order Sample.parseFloat Sample.place
              Sample.second_provider Sample.empty_world JNull
              (snd (cache.get Sample.second_provider
                      (geocode_cacheKey Sample.place) Sample.empty_world))
              (fst (geocodeLocation Sample.parseFloat Sample.second_provider
                      (JStr Sample.place) Sample.empty_world))
              (snd (geocodeLocation Sample.parseFloat Sample.second_provider
                      (JStr Sample.place) Sample.empty_world)))
    as (r & Ho & _ & Htried & _ & _ & Hwin);
    [ vm_compute; reflexivity | reflexivity | vm_compute; reflexivity
    | in_range |].
  destruct (Hwin Sample.mapbox_request) as (p & t & m & evs0 & Hp & Hid & Hevs & _);
    [vm_compute; member | reflexivity |].
  exists r, p, t, m, evs0. split; [assumption|]. split; [|auto].
  apply (Htried GoogleMaps); [reflexivity | vm_compute; discriminate |].
  intros e q _ _ Hlt. destruct q; cbn in Hlt; lia.
Defined.

(** ** Negative caching and cache hits *)

Section Caching.

Variable parseFloat : jsstring -> float.

(** C3: when the lookup of [geocodeLocation] misses and no provider
    answers with a match, the resolution returns (it does not throw) the
    object with [null] latitude and longitude, the input name as
    formatted address, [null] as provider and ['unknown'] as
    confidence, and, the clock being in the range of [Date], its last
    act is the write of that object with expiry 60 minutes after the
    time [t] of the write.  When the medium
    took the write, the entry is in the table; and from any world that
    holds this entry, with the medium answering and the read made no
    later than the expiry, a resolution of the same name returns the
    identical object after the one [select], without any request to a
    provider. *)
Theorem negative_result_is_cached name env w c w1 o w' :
  cache.get env (geocode_cacheKey name) w = (Return c, w1) ->
  truthy c = false ->
  geocodeLocation parseFloat env (JStr name) w = (o, w') ->
  Date_range w w' ->
  (forall e, e ∈ new_events w1 w' -> answer_matches e = false) ->
  exists r t m evs0,
    o = Return (JGeo r) /\
    latitude r = None /\ longitude r = None /\ formatted_address r = name /\
    geocoding_provider r = None /\ confidence r = js "unknown" /\
    new_events w1 w' =
      evs0 ++ [EvUpsert (geocode_cacheKey name) (JGeo r)
                 (t + 60 * 60 * 1000) m] /\
    now w1 <= t <= now w' /\
    (m = Up ->
       table w' !! geocode_cacheKey name =
       Some {| value := JGeo r; expires_at := t + 60 * 60 * 1000 |}) /\
    (forall env2 w2,
       table w2 !! geocode_cacheKey name =
         Some {| value := JGeo r; expires_at := t + 60 * 60 * 1000 |} ->
       medium env2 (io w2) = Up ->
       now w2 + Z.of_N (delay env2 (io w2)) <= t + 60 * 60 * 1000 ->
       exists w2',
         geocodeLocation parseFloat env2 (JStr name) w2
           = (Return (JGeo r), w2')
         /\ new_events w2 w2' = [EvSelect (geocode_cacheKey name) Up]).
Proof.
  intros Hget Hc Hrun HR Hnone.
  unfold geocodeLocation, bind in Hrun. rewrite Hget, Hc in Hrun.
  assert (HR1 : Date_range w1 w').
  { pose proof (cache_get_clock env (geocode_cacheKey name) w) as N.
    rewrite Hget in N. destruct HR. split; [cbn in N; lia|assumption]. }
  destruct (tryProviders_run parseFloat env name (geocode_cacheKey name) w1
              _ _ Hrun HR1) as (r & -> & Hres).
  clear Hrun HR HR1. rename w' into w2.
  assert (Hsecond : forall r0 t0 env2 w3,
    table w3 !! geocode_cacheKey name =
      Some {| value := JGeo r0; expires_at := t0 |} ->
    medium env2 (io w3) = Up ->
    now w3 + Z.of_N (delay env2 (io w3)) <= t0 ->
    exists w3',
      geocodeLocation parseFloat env2 (JStr name) w3 = (Return (JGeo r0), w3')
      /\ new_events w3 w3' = [EvSelect (geocode_cacheKey name) Up]).
  { intros r0 t0 env2 w3 Hrow Hup Ht. unfold geocodeLocation, bind.
    rewrite (cache_get_fresh env2 _ w3 _ Hrow Hup Ht). cbn.
    eexists. split; [reflexivity|]. apply new_events_app. reflexivity. }
  destruct Hres
    as [r w2 Hg | r wg w2 Hg Hm | r wg wm w2 Hg Hm Ho | wg wm wo Hg Hm Ho].
  - exfalso. open_returned Hg. events_of w1 w2.
    specialize (Hnone e). rewrite A in Hnone. discriminate Hnone. member.
  - exfalso. open_returned Hm. open_fell Hg; events_of w1 w2;
      specialize (Hnone e).
    all: rewrite A in Hnone; discriminate Hnone; member.
  - exfalso. open_returned Ho. open_fell Hg; open_fell Hm; events_of w1 w2;
      specialize (Hnone e).
    all: rewrite A in Hnone; discriminate Hnone; member.
  - clear Hnone.
    exists (unresolved name), (now wo), (medium env (io wo)).
    match goal with |- context [new_events w1 ?w] =>
      remember w as w2 eqn:W2;
      assert (Tr2 : trace w2 = trace wo ++ [EvUpsert (geocode_cacheKey name)
                (JGeo (unresolved name)) (now wo + 60 * 60 * 1000)
                (medium env (io wo))])
        by (subst w2; reflexivity);
      assert (Tb2 : medium env (io wo) = Up ->
                table w2 !! geocode_cacheKey name =
                Some {| value := JGeo (unresolved name);
                        expires_at := now wo + 60 * 60 * 1000 |})
        by (intros Hup; subst w2; cbn; rewrite Hup; cbn; apply lookup_insert_eq);
      assert (Nw2 : now wo <= now w2) by (subst w2; cbn; lia)
    end.
    clear W2.
    open_fell Hg; open_fell Hm; open_fell Ho; events_of w1 w2;
      (eexists; repeat (split; [reflexivity|]));
      (split; [ first [ instantiate (1 := []); reflexivity
                      | instantiate (1 := [_]); reflexivity
                      | instantiate (1 := [_; _]); reflexivity
                      | instantiate (1 := [_; _; _]); reflexivity ] |]);
      (split; [lia|]); (split; [assumption|]); apply Hsecond.
Qed.

(** C4: when the lookup of [geocodeLocation] hands back a cached
    geocoding object, a negative one included, the resolution returns
    that object in the world the lookup left: nothing happens after the
    lookup, and the lookup itself makes no request to a provider. *)
Theorem cache_hit_returns_without_providers name env w r w1 :
  cache.get env (geocode_cacheKey name) w = (Return (JGeo r), w1) ->
  geocodeLocation parseFloat env (JStr name) w = (Return (JGeo r), w1) /\
  (forall e, e ∈ new_events w w1 -> provider_of e = None).
Proof.
  intros Hget. split.
  - unfold geocodeLocation, bind. rewrite Hget. reflexivity.
  - intros e Hin.
    destruct (cache_get_events _ _ _ _ _ Hget) as [E | [m E]];
      rewrite E in Hin; in_list Hin; reflexivity.
Qed.

End Caching.

(** Nobody knows Nowhereland: the negative result is written, and a
    second resolution, 20 ms before the entry expires and with
    providers that would now answer, still returns it. *)
Lemma negative_result_is_cached_witness :
  exists r t m evs0,
    fst (geocodeLocation Sample.parseFloat Sample.nowhere
           (JStr Sample.nowhereland) Sample.empty_world) = Return (JGeo r) /\
    latitude r = None /\ longitude r = None /\
    formatted_address r = Sample.nowhereland /\
    geocoding_provider r = None /\ confidence r = js "unknown" /\
    new_events
      (snd (cache.get Sample.nowhere (geocode_cacheKey Sample.nowhereland)
              Sample.empty_world))
      (snd (geocodeLocation Sample.parseFloat Sample.nowhere
              (JStr Sample.nowhereland) Sample.empty_world))
    = evs0 ++ [EvUpsert (geocode_cacheKey Sample.nowhereland) (JGeo r)
                 (t + 60 * 60 * 1000) m] /\
    (exists w2',
       geocodeLocation Sample.parseFloat Sample.second_provider
         (JStr Sample.nowhereland)
         (world_at (t + 60 * 60 * 1000 - 20)
            (snd (geocodeLocation Sample.parseFloat Sample.nowhere
                    (JStr Sample.nowhereland) Sample.empty_world)))
       = (Return (JGeo r), w2')).
Proof.
  destruct (negative_result_is_cached Sample.parseFloat Sample.nowhereland
              Sample.nowhere Sample.empty_world JNull
              (snd (cache.get Sample.nowhere
                      (geocode_cacheKey Sample.nowhereland) Sample.empty_world))
              (fst (geocodeLocation Sample.parseFloat Sample.nowhere
                      (JStr Sample.nowhereland) Sample.empty_world))
              (snd (geocodeLocation Sample.parseFloat Sample.nowhere
                      (JStr Sample.nowhereland) Sample.empty_world)))
    as (r & t & m & evs0 & Ho & Hlat & Hlng & Haddr & Hprov & Hconf
        & Hevs & Ht & Htable & Hsecond);
    [ vm_compute; reflexivity | reflexivity | vm_compute; reflexivity
    | in_range
    | intros e Hin; vm_compute in Hin; in_list Hin; reflexivity |].
  exists r, t, m, evs0. repeat (split; [assumption|]).
  assert (Hm : m = Up).
  { vm_compute in Hevs. destruct evs0 as [|? [|? [|? [|? [|? ?]]]]];
      try discriminate Hevs; cbn in Hevs; congruence. }
  destruct (Hsecond Sample.second_provider
              (world_at (t + 60 * 60 * 1000 - 20)
                 (snd (geocodeLocation Sample.parseFloat Sample.nowhere
                         (JStr Sample.nowhereland) Sample.empty_world))))
    as (w2' & Hrun & _);
    [exact (Htable Hm) | reflexivity | cbn; lia |].
  exists w2'. exact Hrun.
Defined.

(** The cached negative result for Nowhereland is returned although
    Mapbox would now answer. *)
Lemma cache_hit_returns_without_providers_witness :
  geocodeLocation Sample.parseFloat Sample.second_provider
    (JStr Sample.nowhereland) Sample.negative_world
  = (Return (JGeo (unresolved Sample.nowhereland)),
     snd (cache.get Sample.second_provider
            (geocode_cacheKey Sample.nowhereland) Sample.negative_world)) /\
  (forall e,
     e ∈ new_events Sample.negative_world
           (snd (cache.get Sample.second_provider
                   (geocode_cacheKey Sample.nowhereland) Sample.negative_world)) ->
     provider_of e = None).
Proof.
  apply (cache_hit_returns_without_providers Sample.parseFloat
           Sample.nowhereland Sample.second_provider Sample.negative_world).
  vm_compute. reflexivity.
Defined.

(** ** The extraction step *)

Lemma strict_neq_false x s : strict_neq x s = false <-> x = JStr s.
Proof.
  destruct x; cbn; try (split; [discriminate|congruence]).
  unfold str_eq. rewrite negb_false_iff, bool_decide_eq_true.
  split; congruence.
Qed.

Lemma generateContent_run env prompt w :
  generateContent env prompt w =
  (match gemini env (io w) prompt with
   | Data text => Return text
   | Fails => Throw NetworkError
   end,
   await env (EvGemini prompt (gemini env (io w) prompt)) (table w) w).
Proof.
  unfold generateContent. destruct (gemini env (io w) prompt); reflexivity.
Qed.

(** The extraction step after a lookup that came back falsy. *)
Lemma extractLocation_step_miss env d w c w1 :
  cache.get env (extract_cacheKey d) w = (Return c, w1) ->
  truthy c = false ->
  extractLocation_step env d w =
  let w2 := await env (EvGemini (extraction_prompt d)
                         (gemini env (io w1) (extraction_prompt d)))
              (table w1) w1 in
  match gemini env (io w1) (extraction_prompt d) with
  | Data text =>
      (Return (JStr (trim text)),
       snd (cache.set env (extract_cacheKey d) (JStr (trim text)) 60 w2))
  | Fails => (Return (JStr (js "NONE")), w2)
  end.
Proof.
  intros Hget Hc. unfold extractLocation_step, bind, try_catch.
  rewrite Hget, Hc. cbn [negb]. rewrite generateContent_run.
  destruct (gemini env (io w1) (extraction_prompt d)); [|reflexivity].
  rewrite cache_set_run. destruct (valid_time _); reflexivity.
Qed.

(** The extraction step never throws. *)
Lemma extractLocation_step_returns env d w :
  exists x w', extractLocation_step env d w = (Return x, w').
Proof.
  destruct (cache_get_returns env (extract_cacheKey d) w) as (c & w1 & Hget).
  destruct (truthy c) eqn:Hc.
  - unfold extractLocation_step, bind. rewrite Hget, Hc.
    eexists _, _. reflexivity.
  - rewrite (extractLocation_step_miss _ _ _ _ _ Hget Hc). cbn zeta.
    destruct (gemini env (io w1) (extraction_prompt d));
      eexists _, _; reflexivity.
Qed.

(** When the lookup misses and the Gemini call fails, the step yields
    ['NONE'] without throwing, its only act after the lookup is that
    call: nothing is written to the cache; and a later call that finds
    no entry under the key calls Gemini again. *)
Lemma extraction_failure_is_not_cached env d w c w1 :
  cache.get env (extract_cacheKey d) w = (Return c, w1) ->
  truthy c = false ->
  gemini env (io w1) (extraction_prompt d) = Fails ->
  exists w2,
    extractLocation_step env d w = (Return (JStr (js "NONE")), w2) /\
    new_events w1 w2 = [EvGemini (extraction_prompt d) Fails] /\
    table w2 = table w1 /\
    (forall env' w3,
       table w3 !! extract_cacheKey d = None ->
       exists o w4 reply rest,
         extractLocation_step env' d w3 = (o, w4) /\
         new_events w3 w4 =
           EvSelect (extract_cacheKey d) (medium env' (io w3))
             :: EvGemini (extraction_prompt d) reply :: rest).
Proof.
  intros Hget Hc Hfail.
  rewrite (extractLocation_step_miss _ _ _ _ _ Hget Hc), Hfail. cbn zeta.
  eexists. split; [reflexivity|].
  split; [apply new_events_app; reflexivity|]. split; [reflexivity|].
  intros env' w3 Habsent.
  rewrite (extractLocation_step_miss _ _ _ _ _
             (cache_get_absent env' _ w3 Habsent) eq_refl).
  cbn zeta.
  destruct (gemini env' _ _) as [text|] eqn:G.
  - rewrite cache_set_run. destruct (valid_time _);
      eexists _, _, _, _; (split; [reflexivity|]);
      apply new_events_app; cbn; rewrite <- ?app_assoc; cbn;
      cbn in G; rewrite ?G; reflexivity.
  - eexists _, _, _, []. split; [reflexivity|].
    apply new_events_app. cbn. rewrite <- !app_assoc. cbn.
    cbn in G. rewrite ?G. reflexivity.
Qed.

(** C5: the code does not do what the claim says.  With Gemini
    unreachable and an empty cache, the extraction step for
    ["send help now"] yields ['NONE'] without throwing, but leaves no
    entry under the extraction key, and the same call made again from
    the world it left calls Gemini again. *)
Theorem failed_extraction_is_retried :
  fst (extractLocation_step Sample.nowhere Sample.description Sample.empty_world)
    = Return (JStr (js "NONE")) /\
  table (snd (extractLocation_step Sample.nowhere Sample.description
                Sample.empty_world))
    !! extract_cacheKey Sample.description = None /\
  new_events
    (snd (extractLocation_step Sample.nowhere Sample.description
            Sample.empty_world))
    (snd (extractLocation_step Sample.nowhere Sample.description
            (snd (extractLocation_step Sample.nowhere Sample.description
                    Sample.empty_world))))
  = [EvSelect (extract_cacheKey Sample.description) Up;
     EvGemini (extraction_prompt Sample.description) Fails].
Proof. vm_compute. auto. Qed.

Section Handler.

Variable parseFloat : jsstring -> float.

(** C9: in a request that performs extraction, when the step yields
    ['NONE'] the handler calls [geocodeLocation] with the original
    description, and when it yields any other value it calls
    [geocodeLocation] with that value, in the world the step left;
    the response carries the same name as [location_name]. *)
Theorem resolver_gets_extraction_or_description env d w x w1 :
  extractLocation_step env d w = (Return x, w1) ->
  (x = JStr (js "NONE") ->
     post_geocoding parseFloat env d true w =
     respond d (Some (JStr d)) (JStr d)
       (geocodeLocation parseFloat env (JStr d) w1)) /\
  (x <> JStr (js "NONE") ->
     post_geocoding parseFloat env d true w =
     respond d (Some x) x (geocodeLocation parseFloat env x w1)).
Proof.
  intros Hstep. unfold post_geocoding, try_catch, bind, respond. rewrite Hstep.
  split; intros Hx.
  - apply strict_neq_false in Hx. rewrite Hx. cbn -[geocodeLocation].
    destruct (geocodeLocation parseFloat env (JStr d) w1) as [[g|e] w2];
      reflexivity.
  - destruct (strict_neq x (js "NONE")) eqn:E.
    + cbn -[geocodeLocation].
      destruct (geocodeLocation parseFloat env x w1) as [[g|e] w2]; reflexivity.
    + apply strict_neq_false in E. contradiction.
Qed.

End Handler.

(** Gemini is unreachable, the step yields ['NONE'], and
    ["send help now"] itself is resolved. *)
Lemma resolver_gets_extraction_or_description_witness :
  post_geocoding Sample.parseFloat Sample.nowhere Sample.description true
    Sample.empty_world =
  respond Sample.description (Some (JStr Sample.description))
    (JStr Sample.description)
    (geocodeLocation Sample.parseFloat Sample.nowhere (JStr Sample.description)
       (snd (extractLocation_step Sample.nowhere Sample.description
               Sample.empty_world))).
Proof.
  apply (resolver_gets_extraction_or_description Sample.parseFloat
           Sample.nowhere Sample.description Sample.empty_world
           (JStr (js "NONE"))
           (snd (extractLocation_step Sample.nowhere Sample.description
                   Sample.empty_world)));
    [vm_compute; reflexivity | reflexivity].
Defined.

(** ** Falsy cached values *)

(** C10, as stated, fails on the geocoding side for a name that cannot
    be encoded: the live entry with the empty string under the key of a
    cut emoji is handed out and taken for a miss, but no provider is
    invoked, although Google Maps would answer; every block throws
    before its request, and the negative result is written over the
    entry. *)
Lemma falsy_entry_without_a_request :
  truthy (JStr []) = false /\
  fst (cache.get Sample.first_provider (geocode_cacheKey Fixture.cut_emoji)
         Fixture.falsy_cut_world) = Return (JStr []) /\
  fst (geocodeLocation Sample.parseFloat Sample.first_provider
         (JStr Fixture.cut_emoji) Fixture.falsy_cut_world)
    = Return (JGeo (unresolved Fixture.cut_emoji)) /\
  omap provider_of
    (trace (snd (geocodeLocation Sample.parseFloat Sample.first_provider
                   (JStr Fixture.cut_emoji) Fixture.falsy_cut_world)))
    = [].
Proof. vm_compute. auto. Qed.

Section Falsy.

Variable parseFloat : jsstring -> float.

(** C10, amended: a live entry whose value is falsy (the empty string,
    [false], [0], [null]) is handed out by [get] and then taken for a
    miss by both callers: the extraction step goes on to call Gemini,
    and [geocodeLocation] goes on to the provider chain exactly as
    after a miss.  The chain requests at least one provider when the
    name can be encoded, and none when it cannot (a name with an
    unpaired surrogate). *)
Theorem falsy_cached_value_is_a_miss env s w row :
  truthy (value row) = false ->
  medium env (io w) = Up ->
  now w + Z.of_N (delay env (io w)) <= expires_at row ->
  (table w !! extract_cacheKey s = Some row ->
     exists w1 o w' reply rest,
       cache.get env (extract_cacheKey s) w = (Return (value row), w1) /\
       extractLocation_step env s w = (o, w') /\
       new_events w w' =
         EvSelect (extract_cacheKey s) Up
           :: EvGemini (extraction_prompt s) reply :: rest) /\
  (table w !! geocode_cacheKey s = Some row ->
     exists w1 o w',
       cache.get env (geocode_cacheKey s) w = (Return (value row), w1) /\
       geocodeLocation parseFloat env (JStr s) w = (o, w') /\
       (o, w') = tryProviders parseFloat env s (geocode_cacheKey s) w1 /\
       (encodeURIComponent s <> None ->
          exists e p, e ∈ new_events w w' /\ provider_of e = Some p) /\
       (encodeURIComponent s = None ->
          forall e, e ∈ new_events w w' -> provider_of e = None)).
Proof.
  intros Hfalsy Hup Ht. split; intros Hrow.
  - pose proof (cache_get_fresh env _ w row Hrow Hup Ht) as Hget.
    rewrite (extractLocation_step_miss _ _ _ _ _ Hget Hfalsy). cbn zeta.
    destruct (gemini env _ _) as [text|] eqn:G.
    + rewrite cache_set_run. destruct (valid_time _);
        eexists _, _, _, _, _; (split; [exact Hget|]);
        (split; [reflexivity|]);
        apply new_events_app; cbn; rewrite <- ?app_assoc; cbn;
        cbn in G; rewrite ?G; reflexivity.
    + eexists _, _, _, _, []. split; [exact Hget|]. split; [reflexivity|].
      apply new_events_app. cbn. rewrite <- !app_assoc. cbn.
      cbn in G. rewrite ?G. reflexivity.
  - pose proof (cache_get_fresh env _ w row Hrow Hup Ht) as Hget.
    destruct (geocodeLocation_miss parseFloat s env w _ _ Hget Hfalsy)
      as (r & w2 & Erun & Hchain).
    exists (await env (EvSelect (geocode_cacheKey s) Up) (table w) w),
           (Return (JGeo r)), w2.
    split; [exact Hget|]. split; [exact Erun|].
    split; [rewrite <- Erun; unfold geocodeLocation, bind;
            rewrite Hget, Hfalsy; reflexivity|].
    destruct (chain_requests parseFloat s env _ _ _ _ Hchain)
      as (evs & wr & Hev & Hall & Hne & Hwr & _).
    assert (Hnew : new_events w w2 = EvSelect (geocode_cacheKey s) Up :: evs ++ wr).
    { apply new_events_app. rewrite Hev. cbn. rewrite <- app_assoc.
      reflexivity. }
    rewrite Hnew. split.
    + intros Hu. specialize (Hne Hu).
      destruct evs as [|e evs]; [contradiction|].
      apply Forall_cons_1 in Hall. destruct Hall as [(p & Hp) _].
      exists e, p. split; [member|].
      now apply requested_is_request in Hp.
    + intros Hu e Hin.
      assert (Hevs : evs = []).
      { destruct evs as [|e0 evs]; [reflexivity|].
        apply Forall_cons_1 in Hall. destruct Hall as [(p & Hp) _].
        apply requested_is_request in Hp. destruct Hp as (_ & _ & Hp).
        contradiction. }
      subst evs. apply elem_of_cons in Hin. destruct Hin as [-> | Hin];
        [reflexivity|]. now apply Hwr.
Qed.

End Falsy.

(** An extraction result trimmed to the empty string sits in the cache,
    live, and Gemini is called all the same; so is the provider chain
    for the empty string under the geocoding key. *)
Lemma falsy_cached_value_is_a_miss_witness :
  (exists w1 o w' reply rest,
     cache.get Sample.nowhere (extract_cacheKey Sample.description)
       Sample.falsy_world = (Return (JStr []), w1) /\
     extractLocation_step Sample.nowhere Sample.description Sample.falsy_world
       = (o, w') /\
     new_events Sample.falsy_world w' =
       EvSelect (extract_cacheKey Sample.description) Up
         :: EvGemini (extraction_prompt Sample.description) reply :: rest) /\
  (exists w1 o w' e p,
     cache.get Sample.nowhere (geocode_cacheKey Sample.description)
       Sample.falsy_world = (Return (JStr []), w1) /\
     geocodeLocation Sample.parseFloat Sample.nowhere (JStr Sample.description)
       Sample.falsy_world = (o, w') /\
     (o, w') = tryProviders Sample.parseFloat Sample.nowhere Sample.description
                 (geocode_cacheKey Sample.description) w1 /\
     e ∈ new_events Sample.falsy_world w' /\ provider_of e = Some p).
Proof.
  destruct (falsy_cached_value_is_a_miss Sample.parseFloat Sample.nowhere
              Sample.description Sample.falsy_world Sample.empty_string_row)
    as [Hextract Hgeocode];
    [reflexivity | reflexivity | vm_compute; discriminate |].
  split; [apply Hextract; reflexivity|].
  destruct Hgeocode as (w1 & o & w' & Hget & Hrun & Hchain & Hsome & _);
    [reflexivity|].
  destruct Hsome as (e & p & Hin & Hp); [vm_compute; discriminate|].
  exists w1, o, w', e, p. auto.
Defined.

(** ** Worked runs *)

Example key_of_paris :
  geocode_cacheKey (js "Paris, France") = "geocode_UGFyaXMsIEZyYW5jZQ=="%string.
Proof. vm_compute. reflexivity. Qed.

(** The scenario of the specification: the extraction for the flooding
    report is cached, the resolver misses, Google Maps has a match. *)
Example lower_east_side_run :
  fst (post_geocoding Sample.parseFloat Sample.first_provider Sample.flooding
         true Sample.extracted_world)
  = Return (res_json
      {| original_description := Sample.flooding;
         extracted_location := Some (JStr Sample.place);
         location_name := JStr Sample.place;
         geocode :=
           JGeo {| latitude := Some (number 0x1.45b851eb851ecp+5%float);
                   longitude := Some (number (-0x1.27eb851eb851fp+6)%float);
                   formatted_address := js "Lower East Side, New York, NY, USA";
                   geocoding_provider := Some (js "google_maps");
                   confidence := js "high" |} |}) /\
  omap provider_of
    (trace (snd (post_geocoding Sample.parseFloat Sample.first_provider
                   Sample.flooding true Sample.extracted_world)))
  = [GoogleMaps] /\
  expires_at
    <$> table (snd (post_geocoding Sample.parseFloat Sample.first_provider
                      Sample.flooding true Sample.extracted_world))
        !! geocode_cacheKey Sample.place
  = Some (Sample.start + 60 + 1440 * 60 * 1000).
Proof. vm_compute. auto. Qed.

(** An answer of white space only is trimmed to the empty string and
    cached; the next call reads the entry and asks Gemini again. *)
Example blank_answer_run :
  fst (extractLocation_step Sample.blank_answer Sample.description
         Sample.empty_world) = Return (JStr []) /\
  value
    <$> table (snd (extractLocation_step Sample.blank_answer Sample.description
                      Sample.empty_world))
        !! extract_cacheKey Sample.description
  = Some (JStr []) /\
  new_events
    (snd (extractLocation_step Sample.blank_answer Sample.description
            Sample.empty_world))
    (snd (extractLocation_step Sample.blank_answer Sample.description
            (snd (extractLocation_step Sample.blank_answer Sample.description
                    Sample.empty_world))))
  = [EvSelect (extract_cacheKey Sample.description) Up;
     EvGemini (extraction_prompt Sample.description) (Data (js "  "));
     EvUpsert (extract_cacheKey Sample.description) (JStr [])
       (Sample.start + 100 + 60 * 60 * 1000) Up].
Proof. vm_compute. auto. Qed.

(** * Further properties *)

(** ** The sweep of expired entries *)

Lemma clear_run env w :
  CacheService.clear env w =
  (Return (is_up (medium env (io w))),
   {| table :=
        if is_up (medium env (io w))
        then filter (fun kv => ~ expires_at kv.2 < now w) (table w)
        else table w;
      now := now w + Z.of_N (delay env (io w));
      io := S (io w);
      trace := trace w |}).
Proof.
  unfold CacheService.clear, try_catch, bind, CacheService.delete_lt, Date_now.
  destruct (medium env (io w)); reflexivity.
Qed.

Lemma clear_lookup env w key :
  table (snd (CacheService.clear env w)) !! key =
  match table w !! key with
  | Some row =>
      if is_up (medium env (io w)) && (expires_at row <? now w)
      then None else Some row
  | None => None
  end.
Proof.
  rewrite clear_run. cbn.
  destruct (medium env (io w)); cbn.
  - destruct (table w !! key) as [row|] eqn:Hrow.
    + destruct (expires_at row <? now w) eqn:E.
      * apply map_lookup_filter_None. right. intros x Hx. cbn.
        rewrite Hrow in Hx. injection Hx as <-. lia.
      * apply map_lookup_filter_Some. split; [assumption|]. cbn. lia.
    + apply map_lookup_filter_None. left. assumption.
  - destruct (table w !! key); reflexivity.
  - destruct (table w !! key); reflexivity.
Qed.

(** X1: [clear] never throws and returns [true] exactly when the medium
    carries the deletion out; it then removes the entries whose expiry
    lies strictly before the time at which [clear] read the clock, and
    keeps every other entry as it was.  When the medium fails, the
    table is as it was. *)
Theorem clear_removes_exactly_the_expired env w :
  exists w',
    CacheService.clear env w = (Return (is_up (medium env (io w))), w') /\
    forall key,
      table w' !! key =
      match table w !! key with
      | Some row =>
          if is_up (medium env (io w)) && (expires_at row <? now w)
          then None else Some row
      | None => None
      end.
Proof.
  exists (snd (CacheService.clear env w)). split.
  - rewrite clear_run. reflexivity.
  - intros key. apply clear_lookup.
Qed.

(** X2: a sweep never changes what a read returns: a [get] after
    [clear] returns what the same [get] returns at the same time from
    the table that was never swept, for every key and whatever the
    medium does during the sweep and during the read. *)
Theorem sweep_is_invisible_to_reads env env' key w :
  fst (cache.get env' key (snd (CacheService.clear env w))) =
  fst (cache.get env' key
         {| table := table w;
            now := now (snd (CacheService.clear env w));
            io := io (snd (CacheService.clear env w));
            trace := trace (snd (CacheService.clear env w)) |}).
Proof.
  rewrite !cache_get_run. cbn zeta. cbn [table io now await].
  rewrite clear_lookup.
  assert (Hnow : now w <= now (snd (CacheService.clear env w))).
  { rewrite clear_run. cbn. lia. }
  destruct (medium env' (io (snd (CacheService.clear env w)))); [|reflexivity..].
  destruct (table w !! key) as [row|]; [|reflexivity].
  destruct (is_up (medium env (io w)) && (expires_at row <? now w)) eqn:E.
  - apply andb_prop in E. destruct E as [_ E]. apply Z.ltb_lt in E.
    cbn [fst].
    destruct (expires_at row <? now (snd (CacheService.clear env w)) + _) eqn:E';
      [reflexivity|].
    apply Z.ltb_ge in E'. lia.
  - destruct (expires_at row <? now (snd (CacheService.clear env w)) + _);
      reflexivity.
Qed.

(** ** Reads are sound, operations are local *)

Lemma cache_get_live env key w v w' :
  cache.get env key w = (Return v, w') ->
  v <> JNull ->
  exists row,
    table w !! key = Some row /\ value row = v /\
    now w + Z.of_N (delay env (io w)) <= expires_at row /\
    medium env (io w) = Up.
Proof.
  rewrite cache_get_run. cbn zeta. intros Hrun Hv.
  destruct (medium env (io w)); [|injection Hrun as <- _; contradiction..].
  destruct (table w !! key) as [row|]; [|injection Hrun as <- _; contradiction].
  cbn in Hrun. destruct (expires_at row <? _) eqn:E;
    [injection Hrun as <- _; contradiction|].
  injection Hrun as <- <-. exists row. repeat split; try reflexivity. lia.
Qed.

(** X3: [get] makes nothing up: a value other than [null] that it
    returns is the value of the entry that the table holds under that
    very key, the entry has not expired at the time of the comparison,
    the medium answered, and the read left the table as it was, with
    the one select as its only call. *)
Theorem get_returns_only_live_values env key w v w' :
  cache.get env key w = (Return v, w') ->
  v <> JNull ->
  exists row,
    table w !! key = Some row /\ value row = v /\
    now w + Z.of_N (delay env (io w)) <= expires_at row /\
    medium env (io w) = Up /\
    table w' = table w /\
    new_events w w' = [EvSelect key Up].
Proof.
  intros Hrun Hv.
  destruct (cache_get_live _ _ _ _ _ Hrun Hv) as (row & Hrow & Hval & Hlive & Hup).
  exists row. repeat (split; [assumption|]).
  rewrite (cache_get_fresh env key w row Hrow Hup Hlive) in Hrun.
  injection Hrun as _ <-. split; [reflexivity|].
  apply new_events_app. reflexivity.
Qed.

Lemma get_returns_only_live_values_witness :
  exists row,
    table Sample.stocked_world !! "k" = Some row /\
    value row = JStr (js "old") /\
    now Sample.stocked_world
      + Z.of_N (delay Sample.nowhere (io Sample.stocked_world))
      <= expires_at row /\
    medium Sample.nowhere (io Sample.stocked_world) = Up /\
    table (snd (cache.get Sample.nowhere "k" Sample.stocked_world))
      = table Sample.stocked_world /\
    new_events Sample.stocked_world
      (snd (cache.get Sample.nowhere "k" Sample.stocked_world))
      = [EvSelect "k" Up].
Proof.
  apply (get_returns_only_live_values Sample.nowhere "k" Sample.stocked_world
           (JStr (js "old"))
           (snd (cache.get Sample.nowhere "k" Sample.stocked_world)));
    [vm_compute; reflexivity | discriminate].
Defined.

Lemma cache_delete_frame env key w other :
  other <> key ->
  table (snd (cache.delete env key w)) !! other = table w !! other.
Proof.
  intros Hne. rewrite cache_delete_run. cbn.
  destruct (is_up _); [apply lookup_delete_ne; congruence|reflexivity].
Qed.

Lemma cache_set_frame env key v ttlMinutes w other :
  other <> key ->
  table (snd (cache.set env key v ttlMinutes w)) !! other = table w !! other.
Proof.
  intros Hne. rewrite cache_set_run.
  destruct (valid_time _); [|reflexivity]. cbn.
  destruct (is_up _); [apply lookup_insert_ne; congruence|reflexivity].
Qed.

Lemma cache_get_frame env key w other :
  other <> key ->
  table (snd (cache.get env key w)) !! other = table w !! other.
Proof.
  intros Hne. rewrite cache_get_run. cbn zeta.
  destruct (medium env (io w)); [|reflexivity..].
  destruct (table w !! key) as [row|]; [|reflexivity].
  destruct (expires_at row <? _); [|reflexivity].
  cbn [snd]. rewrite cache_delete_frame by assumption. reflexivity.
Qed.

(** X4: [get], [set] and [delete] for one key leave the entry of every
    other key as it was, whatever the medium does; and a [get] never
    creates or alters the entry of its own key: what is under the key
    after a [get] was there before. *)
Theorem cache_operations_touch_one_key env key v ttlMinutes w other :
  other <> key ->
  table (snd (cache.get env key w)) !! other = table w !! other /\
  table (snd (cache.set env key v ttlMinutes w)) !! other = table w !! other /\
  table (snd (cache.delete env key w)) !! other = table w !! other /\
  (forall row, table (snd (cache.get env key w)) !! key = Some row ->
               table w !! key = Some row).
Proof.
  intros Hne.
  split; [now apply cache_get_frame|].
  split; [now apply cache_set_frame|].
  split; [now apply cache_delete_frame|].
  intros row. rewrite cache_get_run. cbn zeta.
  destruct (medium env (io w)); [|cbn; auto..].
  destruct (table w !! key) as [row0|] eqn:Hrow; [|cbn; rewrite Hrow; auto].
  destruct (expires_at row0 <? _); [|cbn; rewrite Hrow; auto].
  cbn [snd]. rewrite cache_delete_run. cbn.
  destruct (is_up _); cbn; [rewrite lookup_delete_eq; discriminate|].
  rewrite Hrow. auto.
Qed.

Lemma cache_operations_touch_one_key_witness :
  table (snd (cache.get Sample.nowhere "k" Sample.stocked_world)) !! "j"
    = table Sample.stocked_world !! "j" /\
  table (snd (cache.set Sample.nowhere "k" (JStr (js "new")) 60
                Sample.stocked_world)) !! "j"
    = table Sample.stocked_world !! "j" /\
  table (snd (cache.delete Sample.nowhere "k" Sample.stocked_world)) !! "j"
    = table Sample.stocked_world !! "j" /\
  (forall row,
     table (snd (cache.get Sample.nowhere "k" Sample.stocked_world)) !! "k"
       = Some row ->
     table Sample.stocked_world !! "k" = Some row).
Proof.
  apply (cache_operations_touch_one_key Sample.nowhere "k" (JStr (js "new")) 60
           Sample.stocked_world "j").
  discriminate.
Defined.

(** X5: with the medium answering, [delete] returns [true] and the
    entry is gone: the table has nothing under the key, and a [get] of
    the key right after it is a miss, whatever the medium does then. *)
Theorem delete_then_get_misses env key w :
  medium env (io w) = Up ->
  exists w1,
    cache.delete env key w = (Return true, w1) /\
    table w1 !! key = None /\
    forall env', fst (cache.get env' key w1) = Return JNull.
Proof.
  intros Hup. rewrite cache_delete_run, Hup. cbn.
  eexists. split; [reflexivity|]. split; [apply lookup_delete_eq|].
  intros env'. rewrite cache_get_absent by (cbn; apply lookup_delete_eq).
  reflexivity.
Qed.

Lemma delete_then_get_misses_witness :
  exists w1,
    cache.delete Sample.nowhere "k" Sample.stocked_world = (Return true, w1) /\
    table w1 !! "k" = None /\
    forall env', fst (cache.get env' "k" w1) = Return JNull.
Proof.
  apply (delete_then_get_misses Sample.nowhere "k" Sample.stocked_world).
  reflexivity.
Defined.

(** ** What the resolver leaves behind *)

Lemma hex_digit_unreserved n : 0 <= n < 16 -> unreserved (hex_digit n) = true.
Proof.
  intros H. unfold hex_digit, unreserved.
  destruct (n <? 10) eqn:E; lia.
Qed.

Lemma escape_safe b : 0 <= b < 256 -> forallb uri_safe (escape b) = true.
Proof.
  intros H. unfold escape. destruct (unreserved b) eqn:E; cbn [forallb].
  - unfold uri_safe. rewrite E. reflexivity.
  - unfold uri_safe.
    rewrite !hex_digit_unreserved by (Z.div_mod_to_equations; lia).
    reflexivity.
Qed.

Lemma encodeURIComponent_safe s encoded :
  code_units s = true -> encodeURIComponent s = Some encoded ->
  forallb uri_safe encoded = true.
Proof.
  intros U. unfold encodeURIComponent.
  destruct (isWellFormed s); [|discriminate]. intros [= <-].
  pose proof (Buffer_from_bytes s U) as B.
  induction B as [|b l Hb B IH]; [reflexivity|].
  cbn. rewrite forallb_app, escape_safe, IH by assumption. reflexivity.
Qed.

Lemma cache_get_trace env key w o w1 :
  cache.get env key w = (o, w1) ->
  trace w1 = trace w ++ new_events w w1 /\
  (forall e, e ∈ new_events w w1 -> storage_key e = Some key) /\
  (forall other, other <> key -> table w1 !! other = table w !! other).
Proof.
  intros Hget. split; [|split].
  - rewrite cache_get_run in Hget. cbn zeta in Hget.
    destruct (medium env (io w)); [destruct (table w !! key) as [row|];
      [destruct (expires_at row <? _)|]|..];
      try rewrite cache_delete_run in Hget; injection Hget as _ <-;
      cbn [trace await snd]; rewrite <- ?app_assoc;
      (erewrite new_events_app; [reflexivity|]);
      cbn [trace await snd]; rewrite <- ?app_assoc; reflexivity.
  - intros e Hin.
    destruct (cache_get_events _ _ _ _ _ Hget) as [Ev | [m Ev]];
      rewrite Ev in Hin; in_list Hin; reflexivity.
  - intros other Hne.
    pose proof (cache_get_frame env key w other Hne) as H.
    rewrite Hget in H. exact H.
Qed.

(** The mark of a provider is not the mark of the negative result. *)
Lemma built_by_is_resolved p r :
  built_by p r ->
  geocoding_provider r <> None /\ confidence r <> js "unknown".
Proof.
  intros (Hp & Hc). rewrite Hp. split; [discriminate|].
  intros Hu. rewrite Hu in Hc.
  destruct p; cbn in Hc; [|destruct Hc as [Hc | Hc]|];
    vm_compute in Hc; discriminate Hc.
Qed.

Section Resolver.

Variable parseFloat : jsstring -> float.

(** The resolver returns for every string, and never returns a falsy
    value. *)
Lemma geocodeLocation_returns name env w :
  exists v w', geocodeLocation parseFloat env (JStr name) w = (Return v, w')
               /\ truthy v = true.
Proof.
  destruct (cache_get_returns env (geocode_cacheKey name) w) as (c & w1 & Hget).
  destruct (truthy c) eqn:Hc.
  - unfold geocodeLocation, bind. rewrite Hget, Hc. eexists _, _.
    split; [reflexivity|assumption].
  - destruct (geocodeLocation_miss parseFloat name env w c w1 Hget Hc)
      as (r & w2 & E & _).
    eexists _, _. split; [exact E|reflexivity].
Qed.

(** What the resolver does with any value: for a string, and for an
    object that [Buffer.from] takes, it returns a truthy value; on
    everything else [Buffer.from] throws its [TypeError] before anything
    is done. *)
Lemma geocodeLocation_outcome env v w :
  (exists g w',
     geocodeLocation parseFloat env v w = (Return g, w')
     /\ truthy g = true
     /\ ((exists s, v = JStr s)
         \/ exists o bytes, v = JObj o /\ Buffer_from_object o = Some bytes))
  \/ (geocodeLocation parseFloat env v w = (Throw TypeError, w)
      /\ forall s, v <> JStr s).
Proof.
  destruct v as [|b|x|s|r|o]; try (right; split; [reflexivity|discriminate]).
  - left. destruct (geocodeLocation_returns s env w) as (g & w' & E & T).
    exists g, w'. repeat split; eauto.
  - cbn [geocodeLocation].
    destruct (Buffer_from_object o) as [bytes|] eqn:B;
      [|right; split; [reflexivity|discriminate]].
    left. unfold bind.
    destruct (cache_get_returns env ("geocode_" ++ toString_base64 bytes) w)
      as (c & w1 & Hget).
    rewrite Hget. destruct (truthy c) eqn:Hc.
    + exists c, w1. repeat split; eauto.
    + destruct (tryProviders_returns parseFloat env (object_name o)
                  ("geocode_" ++ toString_base64 bytes) w1) as (r & w2 & E & _).
      rewrite E. exists (JGeo r), w2. repeat split; eauto.
Qed.

Lemma geocodeLocation_local name env w o w' :
  geocodeLocation parseFloat env (JStr name) w = (o, w') ->
  (forall e, e ∈ new_events w w' ->
     (exists p, provider_of e = Some p)
     \/ storage_key e = Some (geocode_cacheKey name)) /\
  (forall other, other <> geocode_cacheKey name ->
     table w' !! other = table w !! other).
Proof.
  intros Hrun.
  destruct (cache_get_returns env (geocode_cacheKey name) w) as (c & w1 & Hget).
  destruct (cache_get_trace _ _ _ _ _ Hget) as (Tr1 & Hkeys & Hframe).
  destruct (truthy c) eqn:Hc.
  - unfold geocodeLocation, bind in Hrun. rewrite Hget, Hc in Hrun.
    injection Hrun as <- <-. split; [|assumption].
    intros e Hin. right. auto.
  - destruct (geocodeLocation_miss parseFloat name env w c w1 Hget Hc)
      as (r & w2 & E & H).
    rewrite E in Hrun. injection Hrun as <- <-.
    destruct (chain_requests parseFloat _ _ _ _ _ _ H)
      as (evs & wr & Tr & Hall & _ & Hwr & Htable & _).
    split.
    + intros e Hin. rewrite Tr1, <- app_assoc in Tr.
      apply new_events_app in Tr. rewrite Tr in Hin.
      rewrite !elem_of_app in Hin. destruct Hin as [Hin | [Hin | Hin]].
      * right. auto.
      * left. rewrite Forall_forall in Hall. destruct (Hall e Hin) as (p & Hp).
        exists p. now apply requested_is_request in Hp.
      * right. now apply Hwr.
    + intros other Hne. rewrite Htable, Hframe by assumption. reflexivity.
Qed.

(** While the clock is in range, the call of [cache.set] at the end of
    a chain is a write. *)
Lemma chain_write name env key w0 w r w' :
  chain_run parseFloat env name key w r w' ->
  Date_range w0 w' -> now w0 <= now w ->
  exists evs t ttl m,
    trace w' = trace w ++ evs ++ [EvUpsert key (JGeo r) (t + ttl * 60 * 1000) m]
    /\ Forall (fun e => exists p, requested p env name e) evs
    /\ now w <= t <= now w'
    /\ table w' =
       (if is_up m
        then <[key := {| value := JSON (JGeo r);
                         expires_at := t + ttl * 60 * 1000 |}]> (table w)
        else table w)
    /\ ((ttl = 1440 /\ (exists p, built_by p r)
         /\ exists evs0 e, evs = evs0 ++ [e] /\ answer_matches e = true
                           /\ result_of parseFloat e = Some r
                           /\ Forall (fun e0 => answer_matches e0 = false) evs0)
        \/ (ttl = 60 /\ r = unresolved name
            /\ Forall (fun e => answer_matches e = false) evs)).
Proof.
  intros (evs & wl & ttl & Tr & Tb & N & W & Hall & _ & Hway) HR N0.
  pose proof (cache_set_clock env key (JGeo r) ttl wl) as Ns.
  rewrite <- W in Ns.
  assert (Httl : 0 <= ttl <= 1440)
    by (destruct Hway as [(-> & _) | (-> & _)]; lia).
  assert (V : valid_time (now wl + ttl * 60 * 1000) = true)
    by (apply (valid_in_range w0 w'); [assumption|lia|assumption]).
  rewrite (cache_set_valid env key (JGeo r) ttl wl V eq_refl) in W.
  cbn [snd] in W.
  exists evs, (now wl), ttl, (medium env (io wl)).
  subst w'. cbn [trace table now await] in *.
  split; [rewrite Tr, <- app_assoc; reflexivity|].
  split; [assumption|]. split; [lia|]. split; [rewrite Tb; reflexivity|].
  assumption.
Qed.

(** X6: on a miss, the resolver returns a result object that is either
    the copy that a provider block makes of the first match in one of
    the answers received, with the mark of that provider (its
    identifier, and a confidence that this block can write), or the
    negative result for the name, and then no answer had a match.  The
    coordinates of a match are copied as they come, so they can be
    [null] with a provider recorded; but a result without a provider is
    the negative one: its coordinates are [null], its address is the
    name, and its confidence is ['unknown'], which no result with a
    provider has. *)
Theorem resolver_result_shape name env w c w1 o w' :
  cache.get env (geocode_cacheKey name) w = (Return c, w1) ->
  truthy c = false ->
  geocodeLocation parseFloat env (JStr name) w = (o, w') ->
  exists r,
    o = Return (JGeo r) /\
    ((exists e p,
        e ∈ new_events w1 w' /\ provider_of e = Some p /\
        answer_matches e = true /\ result_of parseFloat e = Some r /\
        built_by p r)
     \/ (r = unresolved name /\
         forall e, e ∈ new_events w1 w' -> answer_matches e = false)) /\
    (geocoding_provider r = None <-> confidence r = js "unknown") /\
    (geocoding_provider r = None ->
       latitude r = None /\ longitude r = None /\ formatted_address r = name).
Proof.
  intros Hget Hc Hrun.
  destruct (geocodeLocation_miss parseFloat name env w c w1 Hget Hc)
    as (r & w2 & E & H).
  rewrite E in Hrun. injection Hrun as <- <-. exists r. split; [reflexivity|].
  destruct (chain_requests parseFloat _ _ _ _ _ _ H)
    as (evs & wr & Tr & Hall & _ & Hwr & _ & Hway).
  apply new_events_app in Tr. rewrite Tr.
  destruct Hway as [((p & B) & evs0 & e & -> & A & R & _) | (-> & Hnone)].
  - assert (Bp : exists q, provider_of e = Some q /\ built_by q r).
    { apply Forall_app in Hall. destruct Hall as [_ Hall].
      apply Forall_cons_1 in Hall. destruct Hall as [(q & Hq) _].
      exists q. split; [now apply requested_is_request in Hq|].
      destruct Hq as (a & url & _ & _ & Hreq).
      destruct e as [| | |url0 [d|]|url0 [d|]|url0 [[|l rest]|]|];
        cbn in R, Hreq; try discriminate R;
        injection Hreq as <- _.
      - destruct (str_eq (status d) (js "OK")); [|discriminate R].
        destruct (results d); [discriminate R|]. injection R as <-.
        split; reflexivity.
      - destruct (features d) as [[|f fs]|]; try discriminate R.
        injection R as <-. split; [reflexivity|]. cbn.
        destruct (PrimFloat.ltb _ _); [left|right]; reflexivity.
      - injection R as <-. split; reflexivity. }
    destruct Bp as (q & Pq & Bq).
    destruct (built_by_is_resolved _ _ Bq) as [Hprov Hconf].
    split.
    { left. exists e, q.
      split; [apply elem_of_app; left; apply elem_of_app; right; member|].
      split; [exact Pq|]. split; [exact A|]. split; [exact R|exact Bq]. }
    split; [split; intros; contradiction|]. intros; contradiction.
  - split.
    + right. split; [reflexivity|]. intros e Hin.
      apply elem_of_app in Hin. destruct Hin as [Hin | Hin].
      * rewrite Forall_forall in Hnone. now apply Hnone.
      * now apply Hwr.
    + split; [split; reflexivity|]. intros _. repeat split; reflexivity.
Qed.

(** X7: on a miss, with the clock in the range of [Date], the calls of
    the resolver after the lookup are some provider requests followed by
    exactly one write, which is the last call, made at a time [t]
    between the lookup and the return; the write hands over the
    returned result under the geocoding key of the name, with an expiry
    1440 minutes after [t] when a provider is recorded in the result
    and 60 minutes after [t] when none is, and the entries of all other
    keys stay as they were.  When the medium accepts the write, the
    table holds the JSON form of the result, and a later resolve of the
    name that finds this entry live returns that JSON form (the result
    itself, but for a coordinate that is [NaN], infinite or [-0]) with
    the lookup as its only call. *)
Theorem resolver_writes_back_once name env w c w1 o w' :
  cache.get env (geocode_cacheKey name) w = (Return c, w1) ->
  truthy c = false ->
  geocodeLocation parseFloat env (JStr name) w = (o, w') ->
  Date_range w w' ->
  exists r evs t ttl m,
    o = Return (JGeo r) /\
    new_events w1 w' =
      evs ++ [EvUpsert (geocode_cacheKey name) (JGeo r) (t + ttl * 60 * 1000) m] /\
    now w1 <= t <= now w' /\
    (forall e, e ∈ evs -> exists p, provider_of e = Some p) /\
    ((ttl = 1440 /\ geocoding_provider r <> None)
     \/ (ttl = 60 /\ geocoding_provider r = None)) /\
    (forall other, other <> geocode_cacheKey name ->
       table w' !! other = table w1 !! other) /\
    (m = Up ->
     table w' !! geocode_cacheKey name =
       Some {| value := JSON (JGeo r); expires_at := t + ttl * 60 * 1000 |} /\
     forall env2 w2,
       table w2 !! geocode_cacheKey name =
         Some {| value := JSON (JGeo r); expires_at := t + ttl * 60 * 1000 |} ->
       medium env2 (io w2) = Up ->
       now w2 + Z.of_N (delay env2 (io w2)) <= t + ttl * 60 * 1000 ->
       exists w2',
         geocodeLocation parseFloat env2 (JStr name) w2
           = (Return (JSON (JGeo r)), w2')
         /\ new_events w2 w2' = [EvSelect (geocode_cacheKey name) Up]).
Proof.
  intros Hget Hc Hrun HR.
  destruct (geocodeLocation_miss parseFloat name env w c w1 Hget Hc)
    as (r & w2 & E & H).
  rewrite E in Hrun. injection Hrun as <- <-.
  pose proof (cache_get_clock env (geocode_cacheKey name) w) as N1.
  rewrite Hget in N1. cbn [snd] in N1.
  destruct (chain_write _ _ _ w _ _ _ H HR N1)
    as (evs & t & ttl & m & Tr & Hreq & Ht & Htable & Httl).
  exists r, evs, t, ttl, m. split; [reflexivity|].
  split; [now apply new_events_app|]. split; [assumption|].
  split; [|split; [|split]].
  - intros e Hin. rewrite Forall_forall in Hreq.
    destruct (Hreq e Hin) as (p & Hp). exists p.
    now apply requested_is_request in Hp.
  - destruct Httl as [(-> & (p & B) & _) | (-> & -> & _)].
    + left. split; [reflexivity|]. now apply built_by_is_resolved in B.
    + right. split; reflexivity.
  - intros other Hne. rewrite Htable.
    destruct (is_up m); [apply lookup_insert_ne; congruence|reflexivity].
  - intros ->. split; [rewrite Htable; apply lookup_insert_eq|].
    intros env2 w3 Hrow Hup Hlive. unfold geocodeLocation, bind.
    rewrite (cache_get_fresh env2 _ w3 _ Hrow Hup Hlive). cbn.
    eexists. split; [reflexivity|]. apply new_events_app. reflexivity.
Qed.

(** X8: a name with an unpaired surrogate, on a miss, reaches no
    provider at all: [encodeURIComponent] throws in every block, the
    resolver returns the negative result for the name, and, with the
    clock in the range of [Date], its only call after the lookup is the
    write of that result for 60 minutes. *)
Theorem ill_formed_name_reaches_no_provider name env w c w1 o w' :
  isWellFormed name = false ->
  cache.get env (geocode_cacheKey name) w = (Return c, w1) ->
  truthy c = false ->
  geocodeLocation parseFloat env (JStr name) w = (o, w') ->
  Date_range w w' ->
  o = Return (JGeo (unresolved name)) /\
  exists t m,
    new_events w1 w' =
      [EvUpsert (geocode_cacheKey name) (JGeo (unresolved name))
         (t + 60 * 60 * 1000) m] /\
    now w1 <= t <= now w'.
Proof.
  intros Hill Hget Hc Hrun HR.
  assert (Hnone : encodeURIComponent name = None)
    by (unfold encodeURIComponent; rewrite Hill; reflexivity).
  destruct (geocodeLocation_miss parseFloat name env w c w1 Hget Hc)
    as (r & w2 & E & H).
  rewrite E in Hrun. injection Hrun as <- <-.
  pose proof (cache_get_clock env (geocode_cacheKey name) w) as N1.
  rewrite Hget in N1. cbn [snd] in N1.
  destruct (chain_write _ _ _ w _ _ _ H HR N1)
    as (evs & t & ttl & m & Tr & Hall & Ht & _ & Httl).
  assert (Hevs : evs = []).
  { destruct evs as [|e evs]; [reflexivity|].
    apply Forall_cons_1 in Hall. destruct Hall as [(p & a & u & Ha & _) _].
    congruence. }
  subst evs.
  destruct Httl as [(_ & _ & (evs0 & e & Hsplit & _)) | (-> & -> & _)].
  { destruct evs0; discriminate Hsplit. }
  split; [reflexivity|]. exists t, m. split; [|assumption].
  now apply new_events_app.
Qed.

(** X9: every request that the resolver sends goes to a provider that
    has its credentials, and its URL is the URL of that provider's
    block around [encodeURIComponent] of the name, which consists of
    unreserved characters and percent signs only: the name cannot add a
    parameter to the request or cut the URL short. *)
Theorem requests_carry_the_encoded_name name env w o w' :
  code_units name = true ->
  geocodeLocation parseFloat env (JStr name) w = (o, w') ->
  forall e p url,
    e ∈ new_events w w' -> request_of e = Some (p, url) ->
    is_configured env p = true /\
    exists encoded,
      encodeURIComponent name = Some encoded /\
      provider_url env p encoded = Some url /\
      forallb uri_safe encoded = true.
Proof.
  intros Hunits Hrun e p url Hin Hreq.
  destruct (cache_get_returns env (geocode_cacheKey name) w) as (c & w1 & Hget).
  destruct (cache_get_trace _ _ _ _ _ Hget) as (Tr1 & Hkeys & _).
  assert (Hlookup : forall e0, e0 ∈ new_events w w1 -> request_of e0 = None).
  { intros e0 Hin0. apply Hkeys in Hin0.
    destruct e0; try discriminate Hin0; reflexivity. }
  destruct (truthy c) eqn:Hc.
  - unfold geocodeLocation, bind in Hrun. rewrite Hget, Hc in Hrun.
    injection Hrun as <- <-. rewrite (Hlookup e Hin) in Hreq. discriminate.
  - destruct (geocodeLocation_miss parseFloat name env w c w1 Hget Hc)
      as (r & w2 & E & H).
    rewrite E in Hrun. injection Hrun as <- <-.
    destruct (chain_requests parseFloat _ _ _ _ _ _ H)
      as (evs & wr & Tr & Hall & _ & Hwr & _).
    rewrite Tr1, <- app_assoc in Tr. apply new_events_app in Tr.
    rewrite Tr in Hin. rewrite !elem_of_app in Hin.
    destruct Hin as [Hin | [Hin | Hin]].
    + rewrite (Hlookup e Hin) in Hreq. discriminate.
    + rewrite Forall_forall in Hall. destruct (Hall e Hin) as (q & Hq).
      pose proof Hq as (a & u & Ha & Hu & Hr). rewrite Hr in Hreq.
      injection Hreq as <- <-.
      split; [now apply requested_is_request in Hq|].
      exists a. repeat split; try assumption.
      now apply encodeURIComponent_safe with name.
    + apply Hwr in Hin. destruct Hin as (Hp & _).
      destruct e; try discriminate Hp; discriminate Hreq.
Qed.

(** X10: the resolver for a name calls nothing but the geocoding
    providers and the storage medium under the geocoding key of that
    name (never Gemini, never another key), and it leaves the entry of
    every other key as it was. *)
Theorem resolver_touches_only_its_key name env w o w' :
  geocodeLocation parseFloat env (JStr name) w = (o, w') ->
  (forall e, e ∈ new_events w w' ->
     (exists p, provider_of e = Some p)
     \/ storage_key e = Some (geocode_cacheKey name)) /\
  (forall other, other <> geocode_cacheKey name ->
     table w' !! other = table w !! other).
Proof. apply geocodeLocation_local. Qed.

(** ** The handler *)

Lemma post_geocoding_plain env d w :
  post_geocoding parseFloat env d false w =
  respond d None (JStr d) (geocodeLocation parseFloat env (JStr d) w).
Proof.
  unfold post_geocoding, try_catch, bind, respond. cbn -[geocodeLocation].
  destruct (geocodeLocation parseFloat env (JStr d) w) as [[g|e] w2]; reflexivity.
Qed.

(** What the handler does from the value of [extractedLocation] on. *)
Lemma post_geocoding_after_extraction env d w x w1 :
  extractLocation_step env d w = (Return x, w1) ->
  post_geocoding parseFloat env d true w =
  respond d
    (Some (if strict_neq x (js "NONE") then x else JStr d))
    (if strict_neq x (js "NONE") then x else JStr d)
    (geocodeLocation parseFloat env
       (if strict_neq x (js "NONE") then x else JStr d) w1).
Proof.
  intros Hstep.
  unfold post_geocoding, try_catch, bind, respond. rewrite Hstep.
  cbn -[geocodeLocation].
  destruct (geocodeLocation parseFloat env _ w1) as [[g|e] w2]; reflexivity.
Qed.



(** X13: past validation the handler ends with [next(error)] in one
    situation only: an extraction was asked for, and the table holds
    under the extraction key of the description a live entry whose
    value is truthy and not a string, which the medium handed out.  The
    error is then the [TypeError] of the resolver. *)
Theorem handler_reports_only_a_cached_non_string env d extractLocation w e w' :
  post_geocoding parseFloat env d extractLocation w = (Return (next e), w') ->
  e = TypeError /\ extractLocation = true /\
  exists row,
    table w !! extract_cacheKey d = Some row /\
    truthy (value row) = true /\
    (forall s, value row <> JStr s) /\
    medium env (io w) = Up /\
    now w + Z.of_N (delay env (io w)) <= expires_at row.
Proof.
  intros Hrun. destruct extractLocation.
  2:{ rewrite post_geocoding_plain in Hrun.
      destruct (geocodeLocation_returns d env w) as (v & w2 & Hd & _).
      rewrite Hd in Hrun. discriminate Hrun. }
  destruct (extractLocation_step_returns env d w) as (x & w1 & Hstep).
  rewrite (post_geocoding_after_extraction _ _ _ _ _ Hstep) in Hrun.
  destruct (geocodeLocation_outcome env
              (if strict_neq x (js "NONE") then x else JStr d) w1)
    as [(g & w2 & E & _) | (E & Hnon')]; rewrite E in Hrun;
    [discriminate Hrun|].
  injection Hrun as <- _. split; [reflexivity|]. split; [reflexivity|].
  assert (Hnon : forall s, x <> JStr s).
  { intros s ->. destruct (strict_neq (JStr s) (js "NONE"));
      eapply Hnon'; reflexivity. }
  clear E Hnon'.
  destruct (cache_get_returns env (extract_cacheKey d) w) as (c & w0 & Hget).
  destruct (truthy c) eqn:Hc.
  - assert (Hstep' : extractLocation_step env d w = (Return c, w0)).
    { unfold extractLocation_step, bind. rewrite Hget, Hc. reflexivity. }
    rewrite Hstep' in Hstep. injection Hstep as -> ->.
    destruct (cache_get_live env _ w x w1 Hget)
      as (row & Hrow & Hv & Hlive & Hup); [intros ->; discriminate Hc|].
    exists row. rewrite Hv. repeat split; assumption.
  - exfalso. rewrite (extractLocation_step_miss _ _ _ _ _ Hget Hc) in Hstep.
    cbn zeta in Hstep.
    destruct (gemini env (io w0) (extraction_prompt d)) as [text|];
      injection Hstep as <- _; eapply Hnon; reflexivity.
Qed.

(** X14: on a miss under the extraction key, when Gemini answers with
    text that is not blank and the medium accepts the write, the clock
    being in the range of [Date], the trimmed answer is what the
    extraction step yields, and it is stored under the extraction key
    of the description for 60 minutes from the time of the write; a
    later extraction for the same description that finds this entry
    live yields the same text with the lookup as its only call, so
    without asking Gemini again. *)
Theorem extraction_answer_is_cached env d w c w1 text :
  cache.get env (extract_cacheKey d) w = (Return c, w1) ->
  truthy c = false ->
  gemini env (io w1) (extraction_prompt d) = Data text ->
  trim text <> [] ->
  medium env (S (io w1)) = Up ->
  Date_range w (snd (extractLocation_step env d w)) ->
  exists w2 t,
    extractLocation_step env d w = (Return (JStr (trim text)), w2) /\
    now w1 <= t <= now w2 /\
    table w2 !! extract_cacheKey d =
      Some {| value := JStr (trim text); expires_at := t + 60 * 60 * 1000 |} /\
    (forall env2 w3,
       table w3 !! extract_cacheKey d =
         Some {| value := JStr (trim text); expires_at := t + 60 * 60 * 1000 |} ->
       medium env2 (io w3) = Up ->
       now w3 + Z.of_N (delay env2 (io w3)) <= t + 60 * 60 * 1000 ->
       exists w4,
         extractLocation_step env2 d w3 = (Return (JStr (trim text)), w4) /\
         new_events w3 w4 = [EvSelect (extract_cacheKey d) Up]).
Proof.
  intros Hget Hc Hg Hne Hup.
  pose proof (cache_get_clock env (extract_cacheKey d) w) as N1.
  rewrite Hget in N1. cbn [snd] in N1.
  rewrite (extractLocation_step_miss _ _ _ _ _ Hget Hc), Hg. cbn zeta.
  rewrite cache_set_run, !upsert_answer_of_object by reflexivity.
  destruct (valid_time _) eqn:V; cbn [snd]; intros HR; [|out_of_range V HR].
  cbn. rewrite Hup. cbn.
  eexists _, _. split; [reflexivity|]. split; [|split].
  2: apply lookup_insert_eq.
  - cbn. lia.
  - intros env2 w3 Hrow Hup3 Hlive.
    unfold extractLocation_step, bind.
    rewrite (cache_get_fresh env2 _ w3 _ Hrow Hup3 Hlive). cbn [value truthy].
    destruct (trim text) as [|x l] eqn:T; [contradiction|]. cbn.
    eexists. split; [reflexivity|]. apply new_events_app. reflexivity.
Qed.

End Resolver.

Lemma resolver_result_shape_witness :
  exists r,
    fst (geocodeLocation Sample.parseFloat Sample.second_provider
           (JStr Sample.place) Sample.empty_world) = Return (JGeo r) /\
    ((exists e p,
        e ∈ new_events
              (snd (cache.get Sample.second_provider
                      (geocode_cacheKey Sample.place) Sample.empty_world))
              (snd (geocodeLocation Sample.parseFloat Sample.second_provider
                      (JStr Sample.place) Sample.empty_world)) /\
        provider_of e = Some p /\
        answer_matches e = true /\ result_of Sample.parseFloat e = Some r /\
        built_by p r)
     \/ (r = unresolved Sample.place /\
         forall e,
           e ∈ new_events
                 (snd (cache.get Sample.second_provider
                         (geocode_cacheKey Sample.place) Sample.empty_world))
                 (snd (geocodeLocation Sample.parseFloat Sample.second_provider
                         (JStr Sample.place) Sample.empty_world)) ->
           answer_matches e = false)) /\
    (geocoding_provider r = None <-> confidence r = js "unknown") /\
    (geocoding_provider r = None ->
       latitude r = None /\ longitude r = None /\
       formatted_address r = Sample.place).
Proof.
  apply (resolver_result_shape Sample.parseFloat Sample.place
           Sample.second_provider Sample.empty_world JNull
           (snd (cache.get Sample.second_provider
                   (geocode_cacheKey Sample.place) Sample.empty_world))
           (fst (geocodeLocation Sample.parseFloat Sample.second_provider
                   (JStr Sample.place) Sample.empty_world))
           (snd (geocodeLocation Sample.parseFloat Sample.second_provider
                   (JStr Sample.place) Sample.empty_world)));
    [vm_compute; reflexivity | reflexivity | vm_compute; reflexivity].
Defined.

(** A match whose [lat] is [null] and whose [lng] is missing is copied
    as it is: the result has a provider and no latitude. *)
Example null_coordinates_are_copied :
  fst (geocodeLocation Sample.parseFloat Fixture.careless_provider
         (JStr Sample.place) Sample.empty_world)
  = Return (JGeo {| latitude := None;
                    longitude := Some undefined;
                    formatted_address := js "Lower East Side, New York, NY, USA";
                    geocoding_provider := Some (js "google_maps");
                    confidence := js "high" |}).
Proof. vm_compute. reflexivity. Qed.

Lemma resolver_writes_back_once_witness :
  exists r evs t ttl m,
    fst (geocodeLocation Sample.parseFloat Sample.first_provider
           (JStr Sample.place) Sample.empty_world) = Return (JGeo r) /\
    new_events
      (snd (cache.get Sample.first_provider (geocode_cacheKey Sample.place)
              Sample.empty_world))
      (snd (geocodeLocation Sample.parseFloat Sample.first_provider
              (JStr Sample.place) Sample.empty_world))
    = evs ++ [EvUpsert (geocode_cacheKey Sample.place) (JGeo r)
                (t + ttl * 60 * 1000) m] /\
    now (snd (cache.get Sample.first_provider (geocode_cacheKey Sample.place)
                Sample.empty_world))
      <= t
      <= now (snd (geocodeLocation Sample.parseFloat Sample.first_provider
                     (JStr Sample.place) Sample.empty_world)) /\
    (forall e, e ∈ evs -> exists p, provider_of e = Some p) /\
    ((ttl = 1440 /\ geocoding_provider r <> None)
     \/ (ttl = 60 /\ geocoding_provider r = None)).
Proof.
  destruct (resolver_writes_back_once Sample.parseFloat Sample.place
              Sample.first_provider Sample.empty_world JNull
              (snd (cache.get Sample.first_provider
                      (geocode_cacheKey Sample.place) Sample.empty_world))
              (fst (geocodeLocation Sample.parseFloat Sample.first_provider
                      (JStr Sample.place) Sample.empty_world))
              (snd (geocodeLocation Sample.parseFloat Sample.first_provider
                      (JStr Sample.place) Sample.empty_world)))
    as (r & evs & t & ttl & m & Ho & Hev & Ht & Hreq & Httl & _);
    [ vm_compute; reflexivity | reflexivity | vm_compute; reflexivity
    | in_range |].
  exists r, evs, t, ttl, m. auto.
Defined.

(** Coordinates that [parseFloat] could not read are [NaN] in the
    result that is returned, and [null] in the result that the cache
    hands out on the next call. *)
Example unparsed_coordinates_come_back_null :
  fst (geocodeLocation Fixture.no_number Fixture.last_provider
         (JStr Sample.place) Sample.empty_world)
  = Return (JGeo {| latitude := Some (number PrimFloat.nan);
                    longitude := Some (number PrimFloat.nan);
                    formatted_address := js "Somewhere";
                    geocoding_provider := Some (js "openstreetmap");
                    confidence := js "medium" |}) /\
  fst (geocodeLocation Fixture.no_number Fixture.last_provider
         (JStr Sample.place)
         (snd (geocodeLocation Fixture.no_number Fixture.last_provider
                 (JStr Sample.place) Sample.empty_world)))
  = Return (JGeo {| latitude := None;
                    longitude := None;
                    formatted_address := js "Somewhere";
                    geocoding_provider := Some (js "openstreetmap");
                    confidence := js "medium" |}).
Proof. vm_compute. auto. Qed.

Lemma ill_formed_name_reaches_no_provider_witness :
  fst (geocodeLocation Sample.parseFloat Sample.first_provider
         (JStr Fixture.cut_emoji) Sample.empty_world)
    = Return (JGeo (unresolved Fixture.cut_emoji)) /\
  exists t m,
    new_events
      (snd (cache.get Sample.first_provider (geocode_cacheKey Fixture.cut_emoji)
              Sample.empty_world))
      (snd (geocodeLocation Sample.parseFloat Sample.first_provider
              (JStr Fixture.cut_emoji) Sample.empty_world))
    = [EvUpsert (geocode_cacheKey Fixture.cut_emoji)
         (JGeo (unresolved Fixture.cut_emoji)) (t + 60 * 60 * 1000) m] /\
    now (snd (cache.get Sample.first_provider
                (geocode_cacheKey Fixture.cut_emoji) Sample.empty_world))
      <= t
      <= now (snd (geocodeLocation Sample.parseFloat Sample.first_provider
                     (JStr Fixture.cut_emoji) Sample.empty_world)).
Proof.
  apply (ill_formed_name_reaches_no_provider Sample.parseFloat Fixture.cut_emoji
           Sample.first_provider Sample.empty_world JNull);
    [reflexivity | vm_compute; reflexivity | reflexivity
    | vm_compute; reflexivity | in_range].
Defined.

Lemma requests_carry_the_encoded_name_witness :
  is_configured Sample.second_provider Mapbox = true /\
  exists encoded,
    encodeURIComponent Sample.place = Some encoded /\
    provider_url Sample.second_provider Mapbox encoded
      = Some (mapbox_url (default [] (encodeURIComponent Sample.place))
                (js "m-key")) /\
    forallb uri_safe encoded = true.
Proof.
  apply (requests_carry_the_encoded_name Sample.parseFloat Sample.place
           Sample.second_provider Sample.empty_world
           (fst (geocodeLocation Sample.parseFloat Sample.second_provider
                   (JStr Sample.place) Sample.empty_world))
           (snd (geocodeLocation Sample.parseFloat Sample.second_provider
                   (JStr Sample.place) Sample.empty_world)))
    with (e := Sample.mapbox_request);
    [ reflexivity | vm_compute; reflexivity
    | vm_compute; member | reflexivity ].
Defined.

Lemma resolver_touches_only_its_key_witness :
  (forall e,
     e ∈ new_events Sample.empty_world
           (snd (geocodeLocation Sample.parseFloat Sample.second_provider
                   (JStr Sample.place) Sample.empty_world)) ->
     (exists p, provider_of e = Some p)
     \/ storage_key e = Some (geocode_cacheKey Sample.place)) /\
  (forall other, other <> geocode_cacheKey Sample.place ->
     table (snd (geocodeLocation Sample.parseFloat Sample.second_provider
                   (JStr Sample.place) Sample.empty_world)) !! other
       = table Sample.empty_world !! other).
Proof.
  apply (resolver_touches_only_its_key Sample.parseFloat Sample.place
           Sample.second_provider Sample.empty_world
           (fst (geocodeLocation Sample.parseFloat Sample.second_provider
                   (JStr Sample.place) Sample.empty_world))).
  vm_compute. reflexivity.
Defined.

(** An array that the cache hands out as the extraction is resolved
    like a name: its bytes make the key, and it is the location name of
    the answer. *)
Example cached_array_is_resolved :
  fst (post_geocoding Sample.parseFloat Sample.nowhere Sample.description true
         Fixture.array_world)
  = Return (res_json
      {| original_description := Sample.description;
         extracted_location := Some (JObj Fixture.byte_array);
         location_name := JObj Fixture.byte_array;
         geocode := JGeo (unresolved (object_name Fixture.byte_array)) |}) /\
  omap storage_key
    (trace (snd (post_geocoding Sample.parseFloat Sample.nowhere
                   Sample.description true Fixture.array_world)))
  = [extract_cacheKey Sample.description; "geocode_TllD"%string;
     "geocode_TllD"%string].
Proof. vm_compute. auto. Qed.

Lemma handler_reports_only_a_cached_non_string_witness :
  fst (post_geocoding Sample.parseFloat Sample.nowhere Sample.description true
         Fixture.foreign_world) = Return (next TypeError) /\
  exists row,
    table Fixture.foreign_world !! extract_cacheKey Sample.description
      = Some row /\
    truthy (value row) = true /\
    (forall s, value row <> JStr s) /\
    medium Sample.nowhere (io Fixture.foreign_world) = Up /\
    now Fixture.foreign_world
      + Z.of_N (delay Sample.nowhere (io Fixture.foreign_world))
      <= expires_at row.
Proof.
  split; [vm_compute; reflexivity|].
  destruct (handler_reports_only_a_cached_non_string Sample.parseFloat
              Sample.nowhere Sample.description true Fixture.foreign_world
              TypeError
              (snd (post_geocoding Sample.parseFloat Sample.nowhere
                      Sample.description true Fixture.foreign_world)))
    as (_ & _ & H); [vm_compute; reflexivity | exact H].
Defined.

Lemma extraction_answer_is_cached_witness :
  exists w2 t,
    extractLocation_step Sample.second_provider Sample.flooding
      Sample.empty_world
      = (Return (JStr (trim (js " Lower East Side, Manhattan "))), w2) /\
    table w2 !! extract_cacheKey Sample.flooding =
      Some {| value := JStr (trim (js " Lower East Side, Manhattan "));
              expires_at := t + 60 * 60 * 1000 |}.
Proof.
  destruct (extraction_answer_is_cached Sample.second_provider Sample.flooding
              Sample.empty_world JNull
              (snd (cache.get Sample.second_provider
                      (extract_cacheKey Sample.flooding) Sample.empty_world))
              (js " Lower East Side, Manhattan "))
    as (w2 & t & Hstep & _ & Htable & _);
    [ vm_compute; reflexivity | reflexivity | reflexivity
    | vm_compute; discriminate | reflexivity | in_range |].
  exists w2, t. split; assumption.
Defined.

(** ** The size of a key *)

Lemma toString_base64_length_below n : forall l,
  (length l < n)%nat ->
  Z.of_nat (String.length (toString_base64 l)) = 4 * ((Z.of_nat (length l) + 2) / 3).
Proof.
  induction n as [|n IH]; intros l L; [lia|].
  destruct l as [|a [|b [|c r]]]; try reflexivity.
  cbn [toString_base64 String.length length].
  rewrite !Nat2Z.inj_succ, IH by (cbn in L; lia).
  Z.div_mod_to_equations. lia.
Qed.

Lemma Buffer_from_length_below n : forall s,
  (length s < n)%nat ->
  (length s <= length (Buffer_from s) <= 3 * length s)%nat.
Proof.
  induction n as [|n IH]; intros s L; [lia|].
  destruct s as [|c rest]; [cbn; lia|].
  cbn [Buffer_from]. cbn [length] in L |- *.
  pose proof (IH rest ltac:(lia)) as Hrest.
  destruct (c <? 128); [cbn; lia|].
  destruct (c <? 2048); [cbn; lia|].
  destruct (is_high_surrogate c).
  - destruct rest as [|d rest']; [cbn; lia|].
    destruct (is_low_surrogate d).
    + pose proof (IH rest' ltac:(cbn in L; lia)). cbn in *. lia.
    + cbn in *. lia.
  - destruct (is_low_surrogate c); cbn in *; lia.
Qed.

Lemma string_length_app (a b : string) :
  String.length (a ++ b) = (String.length a + String.length b)%nat.
Proof.
  induction a as [|x a IH]; [reflexivity|].
  change (S (String.length (a ++ b)) = S (String.length a + String.length b))%nat.
  now rewrite IH.
Qed.

(** X15: a cache key is its prefix followed by four characters for
    every three UTF-8 bytes of the input, so it is never shorter than
    prefix and input together and at most four characters longer per
    UTF-16 code unit of the input: the extraction key of a description
    of [n] code units has between [17 + n] and [17 + 4 n] characters,
    the geocoding key of a name between [8 + n] and [8 + 4 n]. *)
Theorem cache_key_length_is_linear operation s :
  (String.length operation + length s
   <= String.length (cacheKey operation s)
   <= String.length operation + 4 * length s)%nat /\
  (17 + length s <= String.length (extract_cacheKey s) <= 17 + 4 * length s)%nat /\
  (8 + length s <= String.length (geocode_cacheKey s) <= 8 + 4 * length s)%nat.
Proof.
  assert (H : forall op,
            (String.length op + length s
             <= String.length (cacheKey op s)
             <= String.length op + 4 * length s)%nat).
  { intros op. unfold cacheKey. rewrite string_length_app.
    pose proof (toString_base64_length_below (S (length (Buffer_from s)))
                  (Buffer_from s) ltac:(lia)) as Hb.
    pose proof (Buffer_from_length_below (S (length s)) s ltac:(lia)) as Hu.
    Z.div_mod_to_equations. lia. }
  split; [apply H|].
  split; [apply (H "location_extract_"%string)|apply (H "geocode_"%string)].
Qed.

(** ** Authentication *)

Lemma str_eq_true a b : str_eq a b = true -> a = b.
Proof. unfold str_eq. apply bool_decide_eq_true. Qed.

Ltac js_absurd :=
  match goal with
  | H : js _ = js _ |- _ => vm_compute in H; discriminate H
  | H : js _ = js _ \/ _ |- _ => destruct H; js_absurd
  end.

Lemma own_mock_user key u :
  Auth.own_property Auth.MOCK_USERS key = Some u ->
  Auth.id u = key /\
  (key = js "netrunnerX" \/ key = js "reliefAdmin"
   \/ key = js "contributor1" \/ key = js "citizen1") /\
  (Auth.role u = js "admin" <-> (key = js "netrunnerX" \/ key = js "reliefAdmin")) /\
  (Auth.role u = js "admin" \/ Auth.role u = js "contributor").
Proof.
  unfold Auth.MOCK_USERS, Auth.own_property.
  destruct (str_eq (js "netrunnerX") key) eqn:E1;
    [|destruct (str_eq (js "reliefAdmin") key) eqn:E2;
      [|destruct (str_eq (js "contributor1") key) eqn:E3;
        [|destruct (str_eq (js "citizen1") key) eqn:E4; [|discriminate]]]];
    intros [= <-];
    match goal with
    | E : str_eq _ key = true |- _ => apply str_eq_true in E; subst key
    end;
    cbn [Auth.id Auth.role];
    (split; [reflexivity|]); (split; [auto 6|]);
    (split; [|auto]);
    split; intros H; auto; try js_absurd.
Qed.

Section Authentication.

Variable on_prototype : jsstring -> bool.

(** X16: [authMiddleware] lets a request through exactly when its user
    id (the [x-user-id] header, or [netrunnerX] when the header is
    missing or empty) names a property of [MOCK_USERS].  For one of the
    four mock users, [req.user] is that user, with the id asked for and
    a role that is [admin] or [contributor]; for a name that the object
    only inherits, [req.user] is the inherited value, without [id] and
    [role], and [requireAdmin] refuses it; every other id gets 401. *)
Theorem authMiddleware_outcomes header :
  match Auth.authMiddleware on_prototype header with
  | Auth.authenticated (Auth.mock u) =>
      Auth.id u = Auth.effective_user_id header /\
      Auth.own_property Auth.MOCK_USERS (Auth.effective_user_id header) = Some u /\
      (Auth.role u = js "admin" \/ Auth.role u = js "contributor")
  | Auth.authenticated (Auth.inherited_value key) =>
      key = Auth.effective_user_id header /\
      Auth.own_property Auth.MOCK_USERS key = None /\
      on_prototype key = true /\
      Auth.user_id (Auth.inherited_value key) = None /\
      Auth.requireAdmin (Auth.inherited_value key) = Auth.forbidden_403
  | Auth.unauthorized_401 =>
      Auth.own_property Auth.MOCK_USERS (Auth.effective_user_id header) = None /\
      on_prototype (Auth.effective_user_id header) = false
  end.
Proof.
  unfold Auth.authMiddleware.
  destruct (Auth.own_property Auth.MOCK_USERS (Auth.effective_user_id header))
    as [u|] eqn:Hown.
  - destruct (own_mock_user _ _ Hown) as (Hid & Hkey & _ & Hrole).
    split; [assumption|]. split; [reflexivity|assumption].
  - destruct (on_prototype (Auth.effective_user_id header)) eqn:Hp.
    + repeat split; auto.
    + split; reflexivity.
Qed.

(** X17: a request passes [authMiddleware] and then [requireAdmin]
    exactly when its user id is [netrunnerX] or [reliefAdmin]; since a
    missing or empty [x-user-id] header counts as [netrunnerX], a
    request without the header is admitted as an admin. *)
Theorem admin_routes_admit_exactly_the_admins header :
  (Auth.reaches_admin_handler on_prototype header = true <->
   (Auth.effective_user_id header = js "netrunnerX"
    \/ Auth.effective_user_id header = js "reliefAdmin")) /\
  Auth.reaches_admin_handler on_prototype None = true /\
  Auth.reaches_admin_handler on_prototype (Some []) = true.
Proof.
  split; [|split; reflexivity].
  unfold Auth.reaches_admin_handler, Auth.authMiddleware.
  destruct (Auth.own_property Auth.MOCK_USERS (Auth.effective_user_id header))
    as [u|] eqn:Hown.
  - destruct (own_mock_user _ _ Hown) as (_ & _ & Hrole & _).
    unfold Auth.requireAdmin. cbn [Auth.user_role]. unfold str_eq.
    case_bool_decide as Hr; split; intros H; try tauto; try discriminate.
  - destruct (on_prototype (Auth.effective_user_id header)); cbn;
      (split; [discriminate|]);
      intros [H | H]; rewrite H in Hown; vm_compute in Hown; discriminate.
Qed.

End Authentication.
